(** * Playwright MCP streaming proxy: a shallow embedding of [app.py]

    The development follows [src/playwright_mcp_databricks/app.py]:
    - [PurePath]: the part of [pathlib] the handler relies on;
    - [Subprocess]: the [asyncio.subprocess.Process] handle and the calls the
      handler makes on it, the reader's line limit and the undrained standard
      error pipe included;
    - [App]: the request handler [handle_sse_connection], its inner
      asynchronous generator [stream_response] with the suspension points of
      its loop and of its [finally] block, and the route table;
    - [TestPackage] and [VerifyDeployment]: the checks of [test_package.py]
      and [verify_deployment.py] that look at the same routes and files.

    Definitions come first, statements about them afterwards. *)

From Stdlib Require Import List String Ascii Bool Arith NArith ZArith Lia.
From Stdlib Require Import Strings.Byte.
Import ListNotations.

Local Open Scope string_scope.
Local Open Scope list_scope.

(* ================================================================== *)
(** ** Paths ([pathlib.PurePosixPath]) *)
(* ================================================================== *)

Module PurePath.

(** A path is a root flag and its components; [Path("/a/b")] is
    [{| root := true; parts := ["a"; "b"] |}].  The POSIX special case of
    exactly two leading slashes is not distinguished from one. *)
Record Path : Type := mkPath { root : bool; parts : list string }.

(** Cut a [str] at every ["/"]; [cur] is the component being read. *)
Fixpoint components (cur s : string) : list string :=
  match s with
  | EmptyString => [cur]
  | String c rest =>
      if Ascii.eqb c "/"%char
      then cur :: components EmptyString rest
      else components (cur ++ String c EmptyString) rest
  end.

(** Empty components and ["."] are dropped when a path is parsed. *)
Definition keeps (c : string) : bool :=
  negb (String.eqb c "" || String.eqb c ".").

Definition is_absolute_str (s : string) : bool :=
  match s with
  | String c _ => Ascii.eqb c "/"%char
  | EmptyString => false
  end.

(** [Path(s)] *)
Definition of_str (s : string) : Path :=
  {| root := is_absolute_str s; parts := filter keeps (components "" s) |}.

(** [p / s]: an absolute right operand replaces the left one. *)
Definition joinpath (p : Path) (s : string) : Path :=
  let q := of_str s in
  if root q then q
  else {| root := root p; parts := parts p ++ parts q |}.

(** [p.parent]: the path without its last component. *)
Definition parent (p : Path) : Path :=
  {| root := root p; parts := removelast (parts p) |}.

(** [str(p)] *)
Definition str (p : Path) : string :=
  match root p, parts p with
  | true, ps => "/" ++ String.concat "/" ps
  | false, [] => "."
  | false, ps => String.concat "/" ps
  end.

Definition eqb (p q : Path) : bool :=
  Bool.eqb (root p) (root q) &&
  (if list_eq_dec string_dec (parts p) (parts q) then true else false).

End PurePath.

Infix "//" := PurePath.joinpath (at level 40, left associativity).

(** A file system is seen through [Path.exists()] only. *)
Definition FileSystem : Type := PurePath.Path -> bool.

(* ================================================================== *)
(** ** Locating the Node.js entry point (app.py, lines 60-68) *)
(* ================================================================== *)

Module Resolve.

(** [Path(__file__).parent.parent.parent / "cli.js"] *)
Definition default_cli_path (module_file : string) : PurePath.Path :=
  PurePath.parent (PurePath.parent (PurePath.parent
    (PurePath.of_str module_file))) // "cli.js".

(** The [for path in sys.path] loop with its [break].  The result is the
    first [test_path] that exists, if any, together with every path on which
    [exists()] was called, in call order. *)
Fixpoint scan (fs : FileSystem) (sys_path : list string)
  : option PurePath.Path * list PurePath.Path :=
  match sys_path with
  | [] => (None, [])
  | path :: rest =>
      let test_path := PurePath.of_str path // "cli.js" in
      if fs test_path
      then (Some test_path, [test_path])
      else let (found, probed) := scan fs rest in
           (found, test_path :: probed)
  end.

(** Lines 60-68 as a whole: the value of [cli_path] when the command is
    built, and the paths probed on the way. *)
Definition resolve_cli_path (fs : FileSystem) (module_file : string)
  (sys_path : list string) : PurePath.Path * list PurePath.Path :=
  let cli_path := default_cli_path module_file in
  if negb (fs cli_path)
  then
    let (found, probed) := scan fs sys_path in
    match found with
    | Some test_path => (test_path, cli_path :: probed)
    | None => (cli_path, cli_path :: probed)
    end
  else (cli_path, [cli_path]).

Definition cli_path (fs : FileSystem) (module_file : string)
  (sys_path : list string) : PurePath.Path :=
  fst (resolve_cli_path fs module_file sys_path).

Definition probes (fs : FileSystem) (module_file : string)
  (sys_path : list string) : list PurePath.Path :=
  snd (resolve_cli_path fs module_file sys_path).

End Resolve.

(* ================================================================== *)
(** ** Python exceptions that reach the handler *)
(* ================================================================== *)

Inductive Exn : Type :=
| CancelledError                 (* the owning task was cancelled *)
| GeneratorExit                  (* the consumer closed the generator *)
| FileNotFoundError              (* raised by the spawn call *)
| OtherError (name : string).    (* any other exception, by class name *)

(* ================================================================== *)
(** ** The child process handle ([asyncio.subprocess.Process]) *)
(* ================================================================== *)

Module Subprocess.

Inductive Stdio : Type := PIPE | DEVNULL | INHERIT.

(** What the parent can observe of a started program whose standard error
    pipe nobody drains: the bytes that arrive on its standard output, the
    bytes its standard error pipe took, the status it ends with when it ends
    without having been signalled, and whether it is stuck in a write to the
    full standard error pipe.  A stuck child writes nothing more and keeps
    its standard output open. *)
Record Child : Type := mkChild {
  out : list byte;
  err : list byte;
  exit_status : Z;
  stuck : bool
}.

(** A program, as the sequence of writes it makes when nothing holds it up,
    and the status it then ends with. *)
Inductive Write : Type :=
| ToStdout (data : list byte)
| ToStderr (data : list byte).

Record Program : Type := mkProgram {
  writes : list Write;
  ends_with : Z
}.

(** The writes that get through when the standard error pipe takes [room]
    more bytes and is never read: what arrives on stdout, what stderr took,
    and whether the program is stuck.  A write to stderr that does not fit
    fills the pipe and blocks for good; nothing after it happens. *)
Fixpoint emit (room : N) (ws : list Write) : list byte * list byte * bool :=
  match ws with
  | [] => ([], [], false)
  | ToStdout data :: rest =>
      let '(o, e, b) := emit room rest in (data ++ o, e, b)
  | ToStderr data :: rest =>
      let n := N.of_nat (List.length data) in
      if (n <=? room)%N
      then let '(o, e, b) := emit (room - n) rest in (o, data ++ e, b)
      else ([], firstn (N.to_nat room) data, true)
  end.

(** The child a program makes on a system whose undrained standard error
    pipe takes [room] bytes. *)
Definition launch (room : N) (prog : Program) : Child :=
  let '(o, e, b) := emit room (writes prog) in
  {| out := o; err := e; exit_status := ends_with prog; stuck := b |}.

(** The operating system's answer to a spawn request. *)
Definition OS : Type := list string -> Child + Exn.

(** Calls made on the handle. *)
Inductive Call : Type := Readline | Terminate | Wait.

Record Process : Type := mkProcess {
  args : list string;          (* the command line it was created with *)
  stdin_mode : Stdio;
  stdout_mode : Stdio;
  stderr_mode : Stdio;
  stdin_data : list byte;      (* bytes written to the child's stdin *)
  stdout_data : list byte;     (* child output on stdout not yet read *)
  stderr_data : list byte;     (* child output on stderr not yet read *)
  hung : bool;                 (* stdout stays open after [stdout_data] *)
  status : Z;                  (* the status the child ends with unsignalled *)
  returncode : option Z;       (* [None] while the child has not been collected *)
  collected : nat;             (* how many times its exit status was collected *)
  calls : list Call            (* calls made on the handle, oldest first *)
}.

(** The handle of a child that has just been started. *)
Definition new_process (cmd : list string) (stdin stdout stderr : Stdio)
  (c : Child) : Process :=
  {| args := cmd;
     stdin_mode := stdin; stdout_mode := stdout; stderr_mode := stderr;
     stdin_data := [];
     stdout_data := out c;
     stderr_data := err c;
     hung := stuck c;
     status := exit_status c;
     returncode := None;
     collected := 0;
     calls := [] |}.

(** [asyncio.create_subprocess_exec] applied to the unpacked [cmd] and the
    three stream modes. *)
Definition create_subprocess_exec (os : OS) (cmd : list string)
  (stdin stdout stderr : Stdio) : Process + Exn :=
  match os cmd with
  | inl c => inl (new_process cmd stdin stdout stderr c)
  | inr e => inr e
  end.

Definition with_stdout (p : Process) (buf : list byte) : Process :=
  {| args := args p;
     stdin_mode := stdin_mode p; stdout_mode := stdout_mode p;
     stderr_mode := stderr_mode p;
     stdin_data := stdin_data p; stdout_data := buf;
     stderr_data := stderr_data p; hung := hung p;
     status := status p; returncode := returncode p;
     collected := collected p; calls := calls p |}.

Definition with_call (p : Process) (c : Call) : Process :=
  {| args := args p;
     stdin_mode := stdin_mode p; stdout_mode := stdout_mode p;
     stderr_mode := stderr_mode p;
     stdin_data := stdin_data p; stdout_data := stdout_data p;
     stderr_data := stderr_data p; hung := hung p;
     status := status p; returncode := returncode p;
     collected := collected p; calls := calls p ++ [c] |}.

(** The child's end of the stdout pipe is closed: the end of the stream
    follows the bytes still unread. *)
Definition close_stdout (p : Process) : Process :=
  {| args := args p;
     stdin_mode := stdin_mode p; stdout_mode := stdout_mode p;
     stderr_mode := stderr_mode p;
     stdin_data := stdin_data p; stdout_data := stdout_data p;
     stderr_data := stderr_data p; hung := false;
     status := status p; returncode := returncode p;
     collected := collected p; calls := calls p |}.

Definition SIGTERM : Z := 15.

(** [terminate()] has been called on the handle. *)
Definition signalled (p : Process) : bool :=
  existsb (fun c => match c with Terminate => true | _ => false end) (calls p).

(** The event loop collects the exit status of a child that has ended and
    stores it in [returncode]; a status already stored is left alone.  A
    child that was sent the termination signal before it was collected is
    taken to have ended by it, which [asyncio] reports as the negated signal
    number. *)
Definition collect (p : Process) : Process :=
  match returncode p with
  | Some _ => p
  | None =>
      {| args := args p;
         stdin_mode := stdin_mode p; stdout_mode := stdout_mode p;
         stderr_mode := stderr_mode p;
         stdin_data := stdin_data p; stdout_data := stdout_data p;
         stderr_data := stderr_data p; hung := hung p;
         status := status p;
         returncode := Some (if signalled p then (- SIGTERM)%Z else status p);
         collected := S (collected p); calls := calls p |}
  end.

(** A buffer cut after its first newline: the bytes up to and including it,
    or the whole buffer when it holds none, and what follows. *)
Fixpoint split_line (buf : list byte) : list byte * list byte :=
  match buf with
  | [] => ([], [])
  | b :: rest =>
      if Byte.eqb b x0a then ([b], rest)
      else let (line, rest') := split_line rest in (b :: line, rest')
  end.

(** The [limit] of the stream reader that [create_subprocess_exec] sets up
    when, as here, none is passed: 2 ** 16. *)
Definition limit : N := 65536.

(** The bytes of a line before its newline. *)
Definition content_length (line : list byte) : N :=
  N.of_nat (List.length (filter (fun b => negb (Byte.eqb b x0a)) line)).

Definition ends_line (line : list byte) : bool :=
  existsb (fun b => Byte.eqb b x0a) line.

(** How an [await process.stdout.readline()] ends. *)
Inductive Read : Type :=
| Line (line : list byte)   (* it returns [line]; the empty line at the end
                               of the stream *)
| Overrun                   (* it raises [ValueError]: more than [limit]
                               bytes before the newline *)
| Pending.                  (* it does not return: no newline yet and the
                               stream still open *)

(** [process.stdout.readline()] is called: the call is recorded. *)
Definition call_readline (p : Process) : Process := with_call p Readline.

(** [StreamReader.readline] on the child's output.  When more than [limit]
    bytes come before the next newline the call raises [ValueError] and the
    reader discards what it holds of that line: here the whole line, which
    nothing reads afterwards.  Without a newline the rest of the output is
    returned once the stream has ended, and the read stays pending while the
    stream is open. *)
Definition readline (p : Process) : Read * Process :=
  let (line, rest) := split_line (stdout_data p) in
  if (limit <? content_length line)%N then (Overrun, with_stdout p rest)
  else if hung p && negb (ends_line line) then (Pending, p)
  else (Line line, with_stdout p rest).

(** [process.terminate()] *)
Definition terminate (p : Process) : Process := with_call p Terminate.

(** [process.wait()] is called; the coroutine it returns is awaited by the
    caller, and returns once the child has been collected. *)
Definition call_wait (p : Process) : Process := with_call p Wait.

End Subprocess.

(* ================================================================== *)
(** ** The application ([app.py]) *)
(* ================================================================== *)

Module App.

Import Subprocess.

Inductive Method : Type := GET | POST | PUT | DELETE | PATCH | HEAD | OPTIONS.

(** [fastapi.Request], as far as a handler could look at it. *)
Record Request : Type := mkRequest {
  method : Method;
  url_path : string;
  req_headers : list (string * string);
  body : list byte
}.

(** What the process is started in: the location of [app.py], the module
    search path, the file system and the operating system. *)
Record Env : Type := mkEnv {
  module_file : string;
  sys_path : list string;
  fs : FileSystem;
  os : OS
}.

(** Effects of a handler on its surroundings, in program order. *)
Inductive Effect : Type :=
| Exists (p : PurePath.Path)                        (* [p.exists()] *)
| Spawn (cmd : list string) (stdin stdout stderr : Stdio).

(** *** The generator [stream_response] (lines 88-101) *)

(** The generator object returned by the call [stream_response()]: its frame
    holds [process]; none of its code has run yet. *)
Record AsyncGen : Type := mkGen { gi_process : Process }.

Definition stream_response (process : Process) : AsyncGen :=
  {| gi_process := process |}.

(** Where the running generator is suspended, or how it finished:
    [Done None] is a plain return (StopAsyncIteration for the consumer),
    [Done (Some e)] is [e] propagating out of the generator.  In [AtWait r]
    the [finally] block is suspended in its [await]; [r] is how the [try]
    block was left and what is resumed when the [await] returns. *)
Inductive Pc : Type :=
| AtRead                       (* in [await process.stdout.readline()] *)
| AtYield                      (* at [yield line] *)
| AtWait (pending : option Exn) (* in [await process.wait()] *)
| Done (raised : option Exn).

Record Session : Type := mkSession {
  process : Process;
  pc : Pc;
  chunks : list (list byte);   (* values yielded so far, oldest first *)
  guard_runs : nat             (* entries into the [finally] block *)
}.

(** Lines 99-101, up to the point where [await process.wait()] suspends. *)
Definition cleanup (process : Process) : Process :=
  match returncode process with
  | None => call_wait (terminate process)
  | Some _ => process
  end.

(** Leaving the [try] block, by [break] or by an exception [r]: the
    [finally] block runs; with nothing to await the generator finishes at
    once, otherwise it is suspended in the [await]. *)
Definition finally_ (s : Session) (r : option Exn) : Session :=
  {| process := cleanup (process s);
     pc := match returncode (process s) with
           | None => AtWait r
           | Some _ => Done r
           end;
     chunks := chunks s;
     guard_runs := S (guard_runs s) |}.

(** What can happen while the generator is suspended. *)
Inductive Event : Type :=
| Proceed            (* what is awaited completes: the read ends, the
                        consumer asks for more, the signalled child has
                        ended and [wait] returns *)
| Raise (e : Exn)    (* the suspended point raises [e] instead *)
| ChildExit          (* the child ends and the event loop collects it *)
| StdoutClosed.      (* the child's end of the stdout pipe gets closed *)

(** The first [__anext__]: the body runs up to its first read. *)
Definition start (g : AsyncGen) : Session :=
  {| process := call_readline (gi_process g);
     pc := AtRead;
     chunks := [];
     guard_runs := 0 |}.

(** The generator is closed or dropped before its first resumption: none of
    its body runs, the [finally] block included. *)
Definition never_started (g : AsyncGen) : Session :=
  {| process := gi_process g;
     pc := Done (Some GeneratorExit);
     chunks := [];
     guard_runs := 0 |}.

Definition with_process (s : Session) (p : Process) : Session :=
  {| process := p; pc := pc s; chunks := chunks s;
     guard_runs := guard_runs s |}.

(** From one suspension point to the next. *)
Definition step (s : Session) (ev : Event) : Session :=
  match pc s with
  | Done _ => s
  | AtRead =>
      match ev with
      | Proceed =>
          match readline (process s) with
          | (Line [], p) =>                                 (* [break] *)
              finally_ (with_process s p) None
          | (Line (b :: l), p) =>                           (* [yield line] *)
              {| process := p; pc := AtYield;
                 chunks := chunks s ++ [b :: l];
                 guard_runs := guard_runs s |}
          | (Overrun, p) =>
              finally_ (with_process s p) (Some (OtherError "ValueError"))
          | (Pending, _) => s
          end
      | Raise e => finally_ s (Some e)
      | ChildExit => with_process s (collect (process s))
      | StdoutClosed => with_process s (close_stdout (process s))
      end
  | AtYield =>
      match ev with
      | Proceed =>                                          (* next iteration *)
          {| process := call_readline (process s); pc := AtRead;
             chunks := chunks s; guard_runs := guard_runs s |}
      | Raise e => finally_ s (Some e)
      | ChildExit => with_process s (collect (process s))
      | StdoutClosed => with_process s (close_stdout (process s))
      end
  | AtWait r =>
      match ev with
      | Proceed =>                                          (* [wait] returns *)
          {| process := collect (process s); pc := Done r;
             chunks := chunks s; guard_runs := guard_runs s |}
      | Raise e =>                                  (* the [await] raises *)
          {| process := process s; pc := Done (Some e);
             chunks := chunks s; guard_runs := guard_runs s |}
      | ChildExit => with_process s (collect (process s))
      | StdoutClosed => with_process s (close_stdout (process s))
      end
  end.

Definition run (s : Session) (evs : list Event) : Session :=
  fold_left step evs s.

(** The consumer drains [g] while [evs] happen. *)
Definition drive (g : AsyncGen) (evs : list Event) : Session :=
  run (start g) evs.

(** *** Responses *)

Record StreamingResponse : Type := mkStreaming {
  body_iterator : AsyncGen;
  media_type : string;
  headers : list (string * string)
}.

Inductive Response : Type :=
| FileResponse (p : PurePath.Path)
| JSONResponse (content : list (string * string))
| Streaming (r : StreamingResponse).

Inductive Outcome : Type :=
| Returns (r : Response)
| Raises (e : Exn)
| NoRoute.           (* no handler of [app.py] is called *)

(** *** [handle_sse_connection] (lines 51-110) *)

(** Lines 72-79. *)
Definition build_cmd (cli_path : PurePath.Path) : list string :=
  [ "node";
    PurePath.str cli_path;
    "--headless";
    "--browser"; "chromium";
    "--no-sandbox";
    "--port"; "0" ].

Definition handle_sse_connection (env : Env) (request : Request)
  : Outcome * list Effect :=
  let (cli_path, probed) :=
    Resolve.resolve_cli_path (fs env) (module_file env) (sys_path env) in
  let cmd := build_cmd cli_path in
  let trace := map Exists probed ++ [Spawn cmd PIPE PIPE PIPE] in
  match create_subprocess_exec (os env) cmd PIPE PIPE PIPE with
  | inr e => (Raises e, trace)
  | inl process =>
      (Returns (Streaming
         {| body_iterator := stream_response process;
            media_type := "text/event-stream";
            headers := [ ("Cache-Control", "no-cache");
                         ("Connection", "keep-alive") ] |}),
       trace)
  end.

(** *** Routes (lines 39-48 and 113-130) *)

Inductive Endpoint : Type :=
| serve_index | health | mcp_sse_endpoint | mcp_api_endpoint.

(** [STATIC_DIR = Path(__file__).parent / "static"] *)
Definition STATIC_DIR (env : Env) : PurePath.Path :=
  PurePath.parent (PurePath.of_str (module_file env)) // "static".

Definition call (ep : Endpoint) (env : Env) (request : Request)
  : Outcome * list Effect :=
  match ep with
  | serve_index => (Returns (FileResponse (STATIC_DIR env // "index.html")), [])
  | health =>
      (Returns (JSONResponse [ ("status", "healthy");
                               ("service", "playwright-mcp-server") ]), [])
  | mcp_sse_endpoint => handle_sse_connection env request
  | mcp_api_endpoint => handle_sse_connection env request
  end.

Definition method_eqb (a b : Method) : bool :=
  match a, b with
  | GET, GET | POST, POST | PUT, PUT | DELETE, DELETE
  | PATCH, PATCH | HEAD, HEAD | OPTIONS, OPTIONS => true
  | _, _ => false
  end.

(** The route table in registration order; stacked decorators register the
    innermost first. *)
Definition routes : list (string * Method * Endpoint) :=
  [ ("/", GET, serve_index);
    ("/health", GET, health);
    ("/mcp/sse", POST, mcp_sse_endpoint);
    ("/mcp/sse", GET, mcp_sse_endpoint);
    ("/api/mcp/", POST, mcp_api_endpoint);
    ("/api/mcp/", GET, mcp_api_endpoint) ].

Definition matches (request : Request) (r : string * Method * Endpoint) : bool :=
  let '(path, m, _) := r in
  String.eqb path (url_path request) && method_eqb m (method request).

Definition route (request : Request) : option Endpoint :=
  match find (matches request) routes with
  | Some (_, _, ep) => Some ep
  | None => None
  end.

(** The first matching route handles the request. *)
Definition dispatch (env : Env) (request : Request) : Outcome * list Effect :=
  match route request with
  | Some ep => call ep env request
  | None => (NoRoute, [])
  end.

(** The session of a response whose body is drained while [evs] happen. *)
Definition session_of (o : Outcome) (evs : list Event) : option Session :=
  match o with
  | Returns (Streaming r) => Some (drive (body_iterator r) evs)
  | _ => None
  end.

End App.

(* ================================================================== *)
(** ** Vocabulary of the statements *)
(* ================================================================== *)

Import Subprocess App.

(** A buffer cut after each newline; a last piece without newline is a line
    of its own. *)
Fixpoint lines_of (buf : list byte) : list (list byte) :=
  match buf with
  | [] => []
  | b :: rest =>
      if Byte.eqb b x0a then [b] :: lines_of rest
      else match lines_of rest with
           | [] => [[b]]
           | l :: ls => (b :: l) :: ls
           end
  end.

(** The calls of the cleanup block among the calls made on a handle. *)
Definition guard_calls (cs : list Call) : list Call :=
  filter (fun c => match c with Readline => false | _ => true end) cs.

Definition reads (cs : list Call) : nat :=
  List.length (filter (fun c => match c with Readline => true | _ => false end) cs).

(** Number of processes a handler started. *)
Definition spawns (tr : list Effect) : nat :=
  List.length (filter (fun e => match e with Spawn _ _ _ _ => true | _ => false end) tr).

(** The relay loop has been left: the generator is in its cleanup or has
    finished. *)
Definition is_done (p : Pc) : bool :=
  match p with Done _ | AtWait _ => true | _ => false end.

(** The requests the four streaming routes accept. *)
Definition mcp_request (r : Request) : Prop :=
  (method r = GET \/ method r = POST) /\
  (url_path r = "/mcp/sse" \/ url_path r = "/api/mcp/").

(** The program that makes the same writes to its standard output and none
    to its standard error. *)
Definition silent (prog : Program) : Program :=
  {| writes := filter (fun w => match w with
                                | ToStdout _ => true
                                | ToStderr _ => false
                                end) (writes prog);
     ends_with := ends_with prog |}.

(** All the bytes a program writes to its standard error. *)
Fixpoint stderr_total (ws : list Write) : N :=
  match ws with
  | [] => 0
  | ToStdout _ :: rest => stderr_total rest
  | ToStderr data :: rest => N.of_nat (List.length data) + stderr_total rest
  end.

(** An operating system that runs [programs] and whose undrained standard
    error pipes take [room] bytes. *)
Definition os_of (room : N) (programs : list string -> Program + Exn) : OS :=
  fun cmd =>
    match programs cmd with
    | inl prog => inl (launch room prog)
    | inr e => inr e
    end.

Definition silenced (programs : list string -> Program + Exn)
  : list string -> Program + Exn :=
  fun cmd =>
    match programs cmd with
    | inl prog => inl (silent prog)
    | inr e => inr e
    end.

Definition with_os (env : Env) (os' : OS) : Env :=
  {| module_file := module_file env; sys_path := sys_path env;
     fs := fs env; os := os' |}.

(** The fixed part of the child's command line. *)
Definition fixed_arguments : list string :=
  [ "--headless"; "--browser"; "chromium"; "--no-sandbox"; "--port"; "0" ].

(** The candidate tried for one entry of the search path. *)
Definition candidate (dir : string) : PurePath.Path :=
  PurePath.of_str dir // "cli.js".

(** *** Concrete surroundings used in the examples *)

Definition bytes (s : string) : list byte := list_byte_of_string s.

Definition app_py : string := "/app/src/playwright_mcp_databricks/app.py".

(** Only [/d2/cli.js] exists. *)
Definition fs_d2 : FileSystem :=
  fun p => PurePath.eqb p (PurePath.of_str "/d2/cli.js").

(** A child that prints three lines, complains once on stderr and ends with
    status 0. *)
Definition three_lines : Child :=
  {| out := bytes "one" ++ [x0a] ++ bytes "two" ++ [x0a] ++ bytes "three" ++ [x0a];
     err := bytes "warning";
     exit_status := 0%Z;
     stuck := false |}.

Definition os_three : OS := fun _ => inl three_lines.

Definition env_d2 : Env :=
  {| module_file := app_py; sys_path := ["/d1"; "/d2"];
     fs := fs_d2; os := os_three |}.

Definition get_sse : Request :=
  {| method := GET; url_path := "/mcp/sse"; req_headers := []; body := [] |}.

Definition post_api_hello : Request :=
  {| method := POST; url_path := "/api/mcp/";
     req_headers := [("content-type", "application/json")];
     body := bytes "hello" |}.

(** A child whose second line of three has one byte more before its newline
    than the reader's limit. *)
Definition long_line : list byte := repeat x61 (N.to_nat 65537) ++ [x0a].

Definition long_second_line : Child :=
  {| out := (bytes "one" ++ [x0a]) ++ long_line ++ (bytes "three" ++ [x0a]);
     err := [];
     exit_status := 0%Z;
     stuck := false |}.

(** A program that prints a line, writes 256 KiB of diagnostics to its
    standard error and prints a second line. *)
Definition chatty : Program :=
  {| writes := [ ToStdout (bytes "one" ++ [x0a]);
                 ToStderr (repeat x61 (N.to_nat 262144));
                 ToStdout (bytes "two" ++ [x0a]) ];
     ends_with := 0%Z |}.

(** A system on which an undrained standard error takes 192 KiB: 64 KiB in
    the pipe and 128 KiB in the reader's buffer before it stops reading. *)
Definition room_192k : N := 196608.

Definition env_chatty : Env :=
  with_os env_d2 (os_of room_192k (fun _ => inl chatty)).

Definition env_chatty_silenced : Env :=
  with_os env_d2 (os_of room_192k (silenced (fun _ => inl chatty))).

(** What is written to standard output by a list of writes. *)
Fixpoint stdout_of (ws : list Write) : list byte :=
  match ws with
  | [] => []
  | ToStdout data :: rest => data ++ stdout_of rest
  | ToStderr _ :: rest => stdout_of rest
  end.

Fixpoint stderr_of (ws : list Write) : list byte :=
  match ws with
  | [] => []
  | ToStdout _ :: rest => stderr_of rest
  | ToStderr data :: rest => data ++ stderr_of rest
  end.

(** What a generator shows of itself and of its child once it is looked at
    from outside. *)
Definition outcome (s : Session)
  : Pc * nat * list Call * option Z * nat :=
  (pc s, guard_runs s, guard_calls (calls (process s)),
   returncode (process s), collected (process s)).

(** *** Invariants of a running session *)

(** The handle's bookkeeping: the status is collected at most once, and a
    stored [returncode] is the child's own status when no signal was sent
    before, the negated signal number when [terminate] and [wait] were
    called before. *)
Definition status_inv (p : Process) : Prop :=
  match returncode p with
  | None => collected p = 0
  | Some rc =>
      collected p = 1 /\
      ((guard_calls (calls p) = [] /\ rc = status p) \/
       (guard_calls (calls p) = [Terminate; Wait] /\ rc = (- SIGTERM)%Z))
  end.

(** The [finally] block has been entered exactly when the relay loop has
    been left; it is suspended in its [await] only after [terminate] and
    [wait] were called; a generator that finished without these calls
    leaves a collected child behind. *)
Definition guard_inv (s : Session) : Prop :=
  status_inv (process s) /\
  match pc s with
  | AtRead | AtYield =>
      guard_runs s = 0 /\ guard_calls (calls (process s)) = []
  | AtWait _ =>
      guard_runs s = 1 /\
      guard_calls (calls (process s)) = [Terminate; Wait]
  | Done _ =>
      guard_runs s = 1 /\
      ((guard_calls (calls (process s)) = [] /\
        returncode (process s) <> None) \/
       guard_calls (calls (process s)) = [Terminate; Wait])
  end.

(** What no step of the generator touches on the handle. *)
Definition same_frame (p q : Process) : Prop :=
  args p = args q /\
  stdin_mode p = stdin_mode q /\
  stdout_mode p = stdout_mode q /\
  stderr_mode p = stderr_mode q /\
  stdin_data p = stdin_data q /\
  stderr_data p = stderr_data q /\
  status p = status q.

(** While the loop runs, the chunks sent so far followed by the lines still
    to be read are the lines of the child's output; a generator that left
    the loop by [break] read it all; in any case the chunks are the first
    lines of the output. *)
Definition fifo_inv (buf : list byte) (s : Session) : Prop :=
  match pc s with
  | AtRead | AtYield =>
      lines_of buf = chunks s ++ lines_of (stdout_data (process s))
  | AtWait None | Done None =>
      chunks s = lines_of buf /\ stdout_data (process s) = []
  | AtWait (Some _) | Done (Some _) =>
      exists rest, lines_of buf = chunks s ++ rest
  end.

(** One read per chunk, and one more that is still pending or that ended the
    loop; [n0] reads were made before the generator started. *)
Definition reads_inv (n0 : nat) (s : Session) : Prop :=
  match pc s with
  | AtRead | AtWait None | Done None =>
      reads (calls (process s)) = n0 + List.length (chunks s) + 1
  | AtYield =>
      reads (calls (process s)) = n0 + List.length (chunks s)
  | AtWait (Some _) | Done (Some _) =>
      reads (calls (process s)) = n0 + List.length (chunks s) \/
      reads (calls (process s)) = n0 + List.length (chunks s) + 1
  end.

(** What the consumer of the response sees of a session. *)
Definition view (s : Session) : Pc * list (list byte) := (pc s, chunks s).

(** Two sessions that go on alike for the consumer: they stand at the same
    point with the same chunks sent, the same bytes unread and the same
    prospect of an end of the stream, and agree on whether the child has
    been collected. *)
Definition same_view (s t : Session) : Prop :=
  pc s = pc t /\ chunks s = chunks t /\
  stdout_data (process s) = stdout_data (process t) /\
  hung (process s) = hung (process t) /\
  (returncode (process s) = None <-> returncode (process t) = None).

(** Two sessions that differ at most in what the event loop knows of the
    child: the same chunks, the same bytes unread, the same prospect of an
    end of the stream, and the same place in the relay loop as long as it
    runs. *)
Definition same_stream (s t : Session) : Prop :=
  chunks s = chunks t /\
  stdout_data (process s) = stdout_data (process t) /\
  is_done (pc s) = is_done (pc t) /\
  (is_done (pc s) = false ->
   pc s = pc t /\ hung (process s) = hung (process t)).

(* ================================================================== *)
(** ** The package test ([test_package.py]) *)
(* ================================================================== *)

Module TestPackage.

(** [needle in hay] on [str]: [needle] occurs somewhere in [hay]. *)
Fixpoint contains (needle hay : string) : bool :=
  String.prefix needle hay ||
  match hay with
  | EmptyString => false
  | String _ rest => contains needle rest
  end.

Definition newline : string := String (ascii_of_nat 10) EmptyString.

(** Line 48. *)
Definition expected_routes : list string :=
  [ "/"; "/health"; "/mcp/sse"; "/api/mcp/" ].

(** The [for route in expected_routes] loop (lines 50-55): the value
    returned and the lines printed; the loop returns at the first route it
    does not find. *)
Fixpoint check_routes (routes expected : list string) : bool * list string :=
  match expected with
  | [] => (true, [])
  | route :: rest =>
      if existsb (contains route) routes
      then let (ok, printed) := check_routes routes rest in
           (ok, ("✓ Route " ++ route ++ " is defined")%string :: printed)
      else (false, [ ("✗ Route " ++ route ++ " is missing")%string ])
  end.

(** [test_app_structure] (lines 39-59).  [imported] is what the [try] block
    gets hold of: [inr routes], the paths of [app.routes] in order, or
    [inl e] when importing the application or listing its routes raises an
    exception that prints as [e]. *)
Definition test_app_structure (imported : string + list string)
  : bool * list string :=
  let header := (newline ++ "Testing FastAPI app structure...")%string in
  match imported with
  | inr routes =>
      let (ok, printed) := check_routes routes expected_routes in
      (ok, header :: printed)
  | inl e => (false, [ header; ("✗ Error testing app structure: " ++ e)%string ])
  end.

(** [index_html] of [test_static_files] (lines 67-68); [file] is the
    [__file__] of [test_package.py]. *)
Definition index_html (file : string) : PurePath.Path :=
  PurePath.parent (PurePath.of_str file)
    // "src" // "playwright_mcp_databricks" // "static" // "index.html".

End TestPackage.

(* ================================================================== *)
(** ** The deployment check ([verify_deployment.py]) *)
(* ================================================================== *)

Module VerifyDeployment.

Definition esc : string := String (ascii_of_nat 27) EmptyString.

(** The two dictionaries of [print_status] (lines 16-28); a status that is
    no key of them raises [KeyError]. *)
Definition colors (status : string) : option string :=
  if String.eqb status "info" then Some (esc ++ "[94m")%string
  else if String.eqb status "success" then Some (esc ++ "[92m")%string
  else if String.eqb status "warning" then Some (esc ++ "[93m")%string
  else if String.eqb status "error" then Some (esc ++ "[91m")%string
  else None.

Definition prefix (status : string) : option string :=
  if String.eqb status "info" then Some "ℹ"
  else if String.eqb status "success" then Some "✓"
  else if String.eqb status "warning" then Some "⚠"
  else if String.eqb status "error" then Some "✗"
  else None.

Definition reset : string := esc ++ "[0m".

(** [print_status] (lines 14-29): the line printed, or the exception. *)
Definition print_status (message status : string) : string + Exn :=
  match colors status with
  | None => inr (OtherError "KeyError")
  | Some color =>
      match prefix status with
      | None => inr (OtherError "KeyError")
      | Some mark => inl (color ++ mark ++ " " ++ message ++ reset)%string
      end
  end.

(** [check_file_exists] (lines 32-39): the value returned and the line
    printed. *)
Definition check_file_exists (fs : FileSystem) (filepath : PurePath.Path)
  (description : string) : bool * (string + Exn) :=
  if fs filepath
  then (true,
        print_status (description ++ ": " ++ PurePath.str filepath) "success")
  else (false,
        print_status (description ++ " not found: " ++ PurePath.str filepath)
                     "error").

(** [root = Path(__file__).parent] (line 71); [file] is the [__file__] of
    [verify_deployment.py]. *)
Definition root (file : string) : PurePath.Path :=
  PurePath.parent (PurePath.of_str file).

(** Lines 72-80. *)
Definition required_files (file : string) : list (PurePath.Path * string) :=
  [ (root file // "pyproject.toml", "Python project configuration");
    (root file // "databricks.yml", "Databricks bundle configuration");
    (root file // "app.yaml", "App configuration");
    (root file // "hooks" // "apps_build.py", "Build hook");
    (root file // "package.json", "Node.js package configuration");
    (root file // "cli.js", "MCP CLI entry point");
    (root file // "index.js", "MCP server module") ].

(** Lines 89-94. *)
Definition src_files (file : string) : list (PurePath.Path * string) :=
  [ (root file // "src" // "playwright_mcp_databricks" // "__init__.py",
     "Package init");
    (root file // "src" // "playwright_mcp_databricks" // "app.py",
     "FastAPI application");
    (root file // "src" // "playwright_mcp_databricks" // "main.py",
     "Main entry point");
    (root file // "src" // "playwright_mcp_databricks" // "static"
       // "index.html",
     "Landing page") ].

(** The loops of [main] over a list of files (lines 82-84 and 96-98),
    started with [all_checks_passed]: its value after the loop and the lines
    printed.  Every file is checked, whatever the earlier ones gave. *)
Fixpoint check_files (fs : FileSystem) (files : list (PurePath.Path * string))
  (all_checks_passed : bool) : bool * list (string + Exn) :=
  match files with
  | [] => (all_checks_passed, [])
  | (filepath, description) :: rest =>
      let (found, line) := check_file_exists fs filepath description in
      let (passed, lines) :=
        check_files fs rest (if negb found then false else all_checks_passed) in
      (passed, line :: lines)
  end.

End VerifyDeployment.

(** *** More invariants of a running session *)

(** While the event loop has not collected the child, the handle says so as
    long as the relay loop runs; once the loop was left in that state the
    child has been signalled and awaited. *)
Definition alive_inv (s : Session) : Prop :=
  match pc s with
  | AtWait _ | Done _ =>
      guard_calls (calls (process s)) = [Terminate; Wait]
  | _ => returncode (process s) = None /\
         guard_calls (calls (process s)) = []
  end.

(** Once the event loop has collected a child that ended by itself, no call
    of the cleanup block is ever made. *)
Definition ended_inv (s : Session) : Prop :=
  returncode (process s) = Some (status (process s)) /\
  guard_calls (calls (process s)) = [].

(** A complete line: bytes without newline, closed by one. *)
Definition framed (c : list byte) : Prop :=
  exists a, ~ In x0a a /\ c = a ++ [x0a].

(** All chunks are complete lines, except that the last one may lack its
    newline when the child's output ended without it. *)
Definition frame_inv (s : Session) : Prop :=
  Forall framed (chunks s) \/
  (stdout_data (process s) = [] /\
   exists cs a, chunks s = cs ++ [a] /\ Forall framed cs /\
                ~ In x0a a /\ a <> []).

(** The layout of the repository below [repo]. *)
Definition app_file (repo : string) : string :=
  repo ++ "/src/playwright_mcp_databricks/app.py".

Definition test_file (repo : string) : string := repo ++ "/test_package.py".

Definition verify_file (repo : string) : string :=
  repo ++ "/verify_deployment.py".

(** The paths of the route table, as [app.routes] lists them. *)
Definition route_paths : list string :=
  map (fun r => fst (fst r)) routes.

(* ================================================================== *)
(** ** Properties *)
(* ================================================================== *)

(** *** Lines *)

Lemma split_line_app (buf : list byte) :
  fst (split_line buf) ++ snd (split_line buf) = buf.
Proof.
  induction buf as [|b rest IH]; simpl; [reflexivity|].
  destruct (Byte.eqb b x0a); simpl; [reflexivity|].
  destruct (split_line rest) as [l r]; simpl in *. now rewrite IH.
Qed.

Lemma split_line_nonempty (buf : list byte) :
  buf <> [] -> fst (split_line buf) <> [].
Proof.
  destruct buf as [|b rest]; [congruence|]. intros _. simpl.
  destruct (Byte.eqb b x0a); simpl; [discriminate|].
  destruct (split_line rest); simpl; discriminate.
Qed.

Lemma split_line_empty (buf : list byte) :
  fst (split_line buf) = [] -> buf = [] /\ snd (split_line buf) = [].
Proof.
  destruct buf as [|b rest]; [now split|].
  intros H. exfalso. revert H. now apply split_line_nonempty.
Qed.

Lemma lines_of_split (buf : list byte) :
  buf <> [] ->
  lines_of buf = fst (split_line buf) :: lines_of (snd (split_line buf)).
Proof.
  induction buf as [|b rest IH]; [congruence|]. intros _. simpl.
  destruct (Byte.eqb b x0a); simpl; [reflexivity|].
  destruct rest as [|b' rest'].
  - reflexivity.
  - rewrite IH by discriminate.
    destruct (split_line (b' :: rest')) as [l r]. reflexivity.
Qed.

Lemma lines_of_concat (buf : list byte) : List.concat (lines_of buf) = buf.
Proof.
  induction buf as [|b rest IH]; simpl; [reflexivity|].
  destruct (Byte.eqb b x0a); simpl; [now rewrite IH|].
  destruct (lines_of rest) as [|l ls]; simpl in *.
  - now rewrite <- IH.
  - now rewrite <- IH.
Qed.

Lemma lines_of_nonempty (buf : list byte) :
  Forall (fun l => l <> []) (lines_of buf).
Proof.
  induction buf as [|b rest IH]; simpl; [constructor|].
  destruct (Byte.eqb b x0a).
  - constructor; [discriminate|assumption].
  - destruct (lines_of rest) as [|l ls].
    + constructor; [discriminate|constructor].
    + inversion IH; subst. constructor; [discriminate|assumption].
Qed.

(** A line: bytes without newline, closed by a newline. *)
Lemma lines_of_line (a rest : list byte) :
  ~ In x0a a ->
  lines_of (a ++ x0a :: rest) = (a ++ [x0a]) :: lines_of rest.
Proof.
  induction a as [|b a IH]; intros Hnl; simpl.
  - reflexivity.
  - destruct (Byte.eqb b x0a) eqn:E.
    + apply Byte.byte_dec_bl in E. exfalso. apply Hnl. now left.
    + rewrite IH; [reflexivity|]. intros H. apply Hnl. now right.
Qed.

(** *** Runs *)

Lemma run_app (s : Session) (evs1 evs2 : list Event) :
  run s (evs1 ++ evs2) = run (run s evs1) evs2.
Proof. unfold run. apply fold_left_app. Qed.

Lemma run_invariant (I : Session -> Prop) :
  (forall s ev, I s -> I (step s ev)) ->
  forall evs s, I s -> I (run s evs).
Proof.
  intros Hstep evs. induction evs as [|ev evs IH]; intros s Hs; simpl.
  - exact Hs.
  - apply IH, Hstep, Hs.
Qed.

Lemma step_done (s : Session) (ev : Event) (r : option Exn) :
  pc s = Done r -> step s ev = s.
Proof. intros H. unfold step. now rewrite H. Qed.

Lemma run_done (evs : list Event) (s : Session) (r : option Exn) :
  pc s = Done r -> run s evs = s.
Proof.
  induction evs as [|ev evs IH]; intros H; simpl; [reflexivity|].
  rewrite (step_done s ev r H). now apply IH.
Qed.

(** Case analysis on one step: the suspension point, the event and, for a
    read that ends, how it ends. *)
Ltac step_cases s ev :=
  let p := fresh "p" in
  let c := fresh "c" in
  let cs := fresh "cs" in
  let g := fresh "g" in
  let line := fresh "line" in
  let rest := fresh "rest" in
  let Hsplit := fresh "Hsplit" in
  let Hover := fresh "Hover" in
  let Hpend := fresh "Hpend" in
  destruct s as [p c cs g]; unfold step; simpl;
  destruct c;
  [ destruct ev;
    [ unfold readline; simpl;
      destruct (split_line (stdout_data p)) as [line rest] eqn:Hsplit;
      destruct (limit <? content_length line)%N eqn:Hover;
      [ simpl
      | destruct (hung p && negb (ends_line line)) eqn:Hpend;
        [ simpl | destruct line; simpl ] ]
    | simpl | simpl | simpl ]
  | destruct ev; simpl
  | destruct ev; simpl
  | simpl ].

(** The two ways out of the [finally] block's test. *)
Ltac by_returncode p :=
  let Hrc := fresh "Hrc" in
  unfold finally_, cleanup, with_process; simpl;
  destruct (returncode p) eqn:Hrc; simpl.

(** *** The guard *)

Lemma guard_calls_app (cs ds : list Call) :
  guard_calls (cs ++ ds) = guard_calls cs ++ guard_calls ds.
Proof. unfold guard_calls. apply filter_app. Qed.

Lemma calls_collect (p : Process) : calls (collect p) = calls p.
Proof. unfold collect. now destruct (returncode p). Qed.

Lemma signalled_guard_calls (p : Process) :
  signalled p =
  existsb (fun c => match c with Terminate => true | _ => false end)
          (guard_calls (calls p)).
Proof.
  unfold signalled, guard_calls.
  induction (calls p) as [|c cs IH]; simpl; [reflexivity|].
  destruct c; simpl; auto.
Qed.

Lemma collect_status_inv (p : Process) :
  guard_calls (calls p) = [] \/ guard_calls (calls p) = [Terminate; Wait] ->
  status_inv p -> status_inv (collect p).
Proof.
  unfold status_inv, collect. intros Hg.
  destruct (returncode p) eqn:Hr; [now rewrite Hr|].
  intros Hc. simpl. rewrite Hc. split; [reflexivity|].
  rewrite signalled_guard_calls.
  destruct Hg as [Hg|Hg]; rewrite Hg; simpl; [left | right]; now split.
Qed.

Lemma status_inv_with_stdout (p : Process) (buf : list byte) :
  status_inv p -> status_inv (with_stdout p buf).
Proof. exact (fun H => H). Qed.

Lemma status_inv_close_stdout (p : Process) :
  status_inv p -> status_inv (close_stdout p).
Proof. exact (fun H => H). Qed.

Lemma guard_calls_readline (p : Process) :
  guard_calls (calls (call_readline p)) = guard_calls (calls p).
Proof.
  unfold call_readline, with_call. simpl.
  rewrite guard_calls_app. apply app_nil_r.
Qed.

Lemma status_inv_call_readline (p : Process) :
  status_inv p -> status_inv (call_readline p).
Proof.
  unfold status_inv. rewrite guard_calls_readline. exact (fun H => H).
Qed.

Lemma cleanup_signals (p : Process) :
  returncode p = None -> guard_calls (calls p) = [] ->
  guard_calls (calls (cleanup p)) = [Terminate; Wait] /\
  returncode (cleanup p) = None /\ collected (cleanup p) = collected p.
Proof.
  intros Hr Hg. unfold cleanup. rewrite Hr.
  unfold call_wait, terminate, with_call. simpl.
  now rewrite !guard_calls_app, Hg.
Qed.

Lemma finally_guard_inv (s : Session) (r : option Exn) :
  status_inv (process s) ->
  guard_runs s = 0 -> guard_calls (calls (process s)) = [] ->
  guard_inv (finally_ s r).
Proof.
  intros Hst Hruns Hcalls. unfold guard_inv, finally_. simpl.
  destruct (returncode (process s)) eqn:Hr.
  - unfold cleanup. rewrite Hr. split; [exact Hst|].
    split; [now rewrite Hruns|]. left. split; [exact Hcalls|].
    rewrite Hr. discriminate.
  - destruct (cleanup_signals _ Hr Hcalls) as (Hg & Hn & Hc).
    split.
    + unfold status_inv. rewrite Hn, Hc.
      unfold status_inv in Hst. now rewrite Hr in Hst.
    + split; [now rewrite Hruns | exact Hg].
Qed.

Lemma step_guard_inv (s : Session) (ev : Event) :
  guard_inv s -> guard_inv (step s ev).
Proof.
  step_cases s ev; intros [Hst H]; simpl in H;
    try (destruct H as [Hg Hc]).
  - (* the read raises for an over-long line *)
    now apply finally_guard_inv.
  - (* the read stays pending *)
    now split.
  - (* end of stream *)
    now apply finally_guard_inv.
  - (* a line is yielded *)
    now split.
  - (* the read raises *)
    now apply finally_guard_inv.
  - split; [apply collect_status_inv; auto | simpl].
    now rewrite calls_collect.
  - now split.
  - (* the consumer asks for more *)
    split; [now apply status_inv_call_readline|]. simpl.
    split; [exact Hg|]. now rewrite guard_calls_app, Hc.
  - (* thrown in at the yield *)
    now apply finally_guard_inv.
  - split; [apply collect_status_inv; auto | simpl].
    now rewrite calls_collect.
  - now split.
  - (* [wait] returns *)
    split; [apply collect_status_inv; auto | simpl].
    rewrite calls_collect. split; [exact Hg | now right].
  - (* the [await] raises *)
    split; [exact Hst | simpl]. split; [exact Hg | now right].
  - split; [apply collect_status_inv; auto | simpl].
    now rewrite calls_collect.
  - now split.
  - now split.
Qed.

Lemma start_guard_inv (cmd : list string) (i o e : Stdio) (c : Child) :
  guard_inv (start (stream_response (new_process cmd i o e c))).
Proof. split; [reflexivity | now split]. Qed.

Lemma drive_guard_inv (cmd : list string) (i o e : Stdio) (c : Child)
  (evs : list Event) :
  guard_inv (drive (stream_response (new_process cmd i o e c)) evs).
Proof.
  unfold drive. apply (run_invariant guard_inv).
  - intros t ev. apply step_guard_inv.
  - apply start_guard_inv.
Qed.

(** *** What the generator leaves alone *)

Lemma same_frame_refl (p : Process) : same_frame p p.
Proof. unfold same_frame. repeat split. Qed.

Lemma collect_frame (p q : Process) :
  same_frame p q -> same_frame p (collect q).
Proof. unfold collect. now destruct (returncode q). Qed.

Lemma cleanup_frame (p q : Process) :
  same_frame p q -> same_frame p (cleanup q).
Proof. unfold cleanup. now destruct (returncode q). Qed.

Lemma step_same_frame (p0 : Process) (s : Session) (ev : Event) :
  same_frame p0 (process s) -> same_frame p0 (process (step s ev)).
Proof.
  step_cases s ev; intros H; simpl in *;
    try (apply cleanup_frame); try (apply collect_frame); exact H.
Qed.

Lemma drive_same_frame (p : Process) (evs : list Event) :
  same_frame p (process (drive (stream_response p) evs)).
Proof.
  unfold drive.
  apply (run_invariant (fun s => same_frame p (process s))).
  - intros s ev. apply step_same_frame.
  - exact (same_frame_refl p).
Qed.

(** *** First in, first out *)

Lemma stdout_collect (p : Process) : stdout_data (collect p) = stdout_data p.
Proof. unfold collect. now destruct (returncode p). Qed.

Lemma stdout_cleanup (p : Process) : stdout_data (cleanup p) = stdout_data p.
Proof. unfold cleanup. now destruct (returncode p). Qed.

Lemma hung_collect (p : Process) : hung (collect p) = hung p.
Proof. unfold collect. now destruct (returncode p). Qed.

Lemma hung_cleanup (p : Process) : hung (cleanup p) = hung p.
Proof. unfold cleanup. now destruct (returncode p). Qed.

Lemma fifo_left_some (buf : list byte) (s : Session) (e : Exn) :
  (exists rest, lines_of buf = chunks s ++ rest) ->
  fifo_inv buf (finally_ s (Some e)).
Proof.
  intros H. unfold fifo_inv, finally_. simpl.
  now destruct (returncode (process s)).
Qed.

Lemma fifo_left_none (buf : list byte) (s : Session) :
  chunks s = lines_of buf -> stdout_data (process s) = [] ->
  fifo_inv buf (finally_ s None).
Proof.
  intros Hc Hb. unfold fifo_inv, finally_. simpl.
  destruct (returncode (process s)); rewrite stdout_cleanup; now split.
Qed.

Lemma step_fifo_inv (buf : list byte) (s : Session) (ev : Event) :
  fifo_inv buf s -> fifo_inv buf (step s ev).
Proof.
  step_cases s ev; unfold fifo_inv at 1; simpl; intros H;
    try (apply fifo_left_some; simpl; eauto; fail);
    try (unfold fifo_inv; simpl; rewrite ?stdout_collect; exact H).
  - (* end of stream: the buffer was empty *)
    destruct (split_line_empty (stdout_data p)) as [Hb Hr].
    { now rewrite Hsplit. }
    rewrite Hsplit in Hr. simpl in Hr. subst rest.
    rewrite Hb in H. simpl in H. rewrite app_nil_r in H.
    apply fifo_left_none; simpl; auto.
  - (* a line is yielded *)
    assert (Hne : stdout_data p <> []).
    { intros Hb. rewrite Hb in Hsplit. discriminate. }
    rewrite (lines_of_split _ Hne), Hsplit in H. simpl in H.
    unfold fifo_inv. simpl. now rewrite <- app_assoc.
  - (* the [await] raises *)
    unfold fifo_inv. simpl. destruct pending as [x|]; [exact H|].
    destruct H as [Hc _]. exists []. now rewrite app_nil_r.
Qed.

Lemma drive_fifo_inv (p : Process) (evs : list Event) :
  fifo_inv (stdout_data p) (drive (stream_response p) evs).
Proof.
  unfold drive. apply (run_invariant (fifo_inv (stdout_data p))).
  - intros s ev. apply step_fifo_inv.
  - reflexivity.
Qed.

(** In every state the chunks are the first lines of the output. *)
Lemma fifo_prefix (buf : list byte) (s : Session) :
  fifo_inv buf s -> exists rest, lines_of buf = chunks s ++ rest.
Proof.
  unfold fifo_inv. destruct (pc s) as [| |[e|]|[e|]]; intros H; eauto.
  - destruct H as [H _]. exists []. now rewrite app_nil_r.
  - destruct H as [H _]. exists []. now rewrite app_nil_r.
Qed.

(** *** Sessions that go on alike *)

Lemma same_view_finally (s t : Session) (r : option Exn) :
  same_view s t -> same_view (finally_ s r) (finally_ t r).
Proof.
  unfold same_view, finally_, cleanup. simpl.
  intros (Hpc & Hch & Hout & Hh & Hrc).
  destruct (returncode (process s)) eqn:Es;
    destruct (returncode (process t)) eqn:Et; simpl.
  - rewrite Es, Et. now repeat split.
  - exfalso. destruct Hrc as [_ Hrc]. now discriminate Hrc.
  - exfalso. destruct Hrc as [Hrc _]. now discriminate Hrc.
  - rewrite Es, Et. now repeat split.
Qed.

Lemma returncode_collect_none (p : Process) :
  returncode (collect p) = None <-> False.
Proof.
  unfold collect. destruct (returncode p) eqn:E; simpl.
  - rewrite E. split; [discriminate | contradiction].
  - split; [discriminate | contradiction].
Qed.

Lemma step_same_view (s t : Session) (ev : Event) :
  same_view s t -> same_view (step s ev) (step t ev).
Proof.
  intros H. pose proof H as (Hpc & Hch & Hout & Hh & Hrc).
  destruct s as [p c cs g], t as [q d ds h]. simpl in *. subst d ds.
  unfold step; simpl.
  destruct c; [destruct ev | destruct ev | destruct ev | ]; simpl;
    try (apply (same_view_finally
                  {| process := p; pc := _; chunks := cs; guard_runs := g |}
                  {| process := q; pc := _; chunks := cs; guard_runs := h |});
         exact H);
    try (unfold same_view, with_process; simpl;
         rewrite ?stdout_collect, ?hung_collect, ?returncode_collect_none;
         tauto).
  (* a read ends *)
  unfold readline. rewrite Hout, Hh.
  destruct (split_line (stdout_data q)) as [line rest].
  destruct (limit <? content_length line)%N.
  - apply (same_view_finally
             {| process := with_stdout p rest; pc := AtRead; chunks := cs;
                guard_runs := g |}
             {| process := with_stdout q rest; pc := AtRead; chunks := cs;
                guard_runs := h |}).
    unfold same_view. simpl. tauto.
  - destruct (hung q && negb (ends_line line)); [exact H|].
    destruct line.
    + apply (same_view_finally
               {| process := with_stdout p rest; pc := AtRead; chunks := cs;
                  guard_runs := g |}
               {| process := with_stdout q rest; pc := AtRead; chunks := cs;
                  guard_runs := h |}).
      unfold same_view. simpl. tauto.
    + unfold same_view. simpl. tauto.
Qed.

Lemma run_same_view (evs : list Event) (s t : Session) :
  same_view s t -> same_view (run s evs) (run t evs).
Proof.
  revert s t. induction evs as [|ev evs IH]; intros s t H; simpl.
  - exact H.
  - apply IH, step_same_view, H.
Qed.

(** *** An undisturbed drain *)

Lemma step_read_eof (s : Session) :
  pc s = AtRead -> stdout_data (process s) = [] -> hung (process s) = false ->
  step s Proceed = finally_ s None.
Proof.
  intros Hpc Hbuf Hh. unfold step, readline. rewrite Hpc, Hbuf, Hh. simpl.
  unfold finally_, with_process. simpl.
  assert (E : with_stdout (process s) [] = process s).
  { destruct s as [p c cs g]. destruct p. simpl in *. now subst. }
  now rewrite E.
Qed.

Lemma step_read_line (s : Session) (l r : list byte) :
  pc s = AtRead -> split_line (stdout_data (process s)) = (l, r) ->
  l <> [] -> (content_length l <= limit)%N -> hung (process s) = false ->
  step s Proceed =
    {| process := with_stdout (process s) r; pc := AtYield;
       chunks := chunks s ++ [l]; guard_runs := guard_runs s |}.
Proof.
  intros Hpc Hsplit Hl Hfit Hh. unfold step, readline.
  rewrite Hpc, Hsplit, Hh. simpl.
  apply N.ltb_ge in Hfit. rewrite Hfit.
  destruct l; [congruence | reflexivity].
Qed.

Lemma split_line_shorter (buf l r : list byte) :
  buf <> [] -> split_line buf = (l, r) -> List.length r < List.length buf.
Proof.
  intros Hne Hsplit.
  pose proof (split_line_app buf) as Happ.
  pose proof (split_line_nonempty buf Hne) as Hl.
  rewrite Hsplit in Happ, Hl. simpl in *.
  rewrite <- Happ, length_app. destruct l; [congruence | simpl; lia].
Qed.

Lemma run_cons (s : Session) (ev : Event) (evs : list Event) :
  run s (ev :: evs) = run (step s ev) evs.
Proof. reflexivity. Qed.

Lemma finally_none_left (s : Session) (m : nat) :
  let t := finally_ s None in
  is_done (pc t) = true /\
  (pc t = AtWait None \/ pc t = Done None) /\
  chunks t = chunks s /\
  pc (run t (repeat Proceed (S m))) = Done None /\
  chunks (run t (repeat Proceed (S m))) = chunks s.
Proof.
  intros t. subst t. unfold finally_.
  destruct (returncode (process s)).
  - rewrite run_done with (r := None) by reflexivity.
    simpl. repeat split; auto.
  - change (repeat Proceed (S m)) with (Proceed :: repeat Proceed m).
    rewrite !run_cons. unfold step. simpl.
    rewrite run_done with (r := None) by reflexivity.
    simpl. repeat split; auto.
Qed.

Lemma undisturbed_run (n : nat) :
  forall (s : Session),
    List.length (stdout_data (process s)) <= n ->
    pc s = AtRead -> hung (process s) = false ->
    Forall (fun l => (content_length l <= limit)%N)
           (lines_of (stdout_data (process s))) ->
    let L := List.length (lines_of (stdout_data (process s))) in
    (forall k, k <= 2 * L ->
               is_done (pc (run s (repeat Proceed k))) = false) /\
    (let s' := run s (repeat Proceed (2 * L + 1)) in
     is_done (pc s') = true /\
     (pc s' = AtWait None \/ pc s' = Done None) /\
     chunks s' = chunks s ++ lines_of (stdout_data (process s))) /\
    (forall m,
        let s' := run s (repeat Proceed (2 * L + 2 + m)) in
        pc s' = Done None /\
        chunks s' = chunks s ++ lines_of (stdout_data (process s))).
Proof.
  induction n as [|n IH]; intros s Hlen Hpc Hh Hfit L; subst L.
  - (* nothing left to read *)
    destruct (stdout_data (process s)) as [|b rest] eqn:Hbuf;
      [|simpl in Hlen; lia].
    pose proof (step_read_eof s Hpc Hbuf Hh) as Hstep.
    destruct (finally_none_left s 0) as (Hd & Hor & Hch & _).
    simpl. rewrite app_nil_r. split; [|split].
    + intros k Hk. replace k with 0 by lia. simpl. now rewrite Hpc.
    + rewrite Hstep. now repeat split.
    + intros m. rewrite Hstep.
      destruct (finally_none_left s m) as (_ & _ & _ & H1 & H2).
      now split.
  - destruct (stdout_data (process s)) as [|b rest] eqn:Hbuf.
    + pose proof (step_read_eof s Hpc Hbuf Hh) as Hstep.
      destruct (finally_none_left s 0) as (Hd & Hor & Hch & _).
      simpl. rewrite app_nil_r. split; [|split].
      * intros k Hk. replace k with 0 by lia. simpl. now rewrite Hpc.
      * rewrite Hstep. now repeat split.
      * intros m. rewrite Hstep.
        destruct (finally_none_left s m) as (_ & _ & _ & H1 & H2).
        now split.
    + assert (Hne : b :: rest <> []) by discriminate.
      destruct (split_line (b :: rest)) as [l r] eqn:Hsplit.
      pose proof (split_line_nonempty _ Hne) as Hl.
      pose proof (split_line_shorter _ _ _ Hne Hsplit) as Hshort.
      rewrite (lines_of_split _ Hne), Hsplit in *. simpl fst in *. simpl snd in *.
      inversion Hfit as [|x xs Hfl Hfr]; subst x xs.
      rewrite <- Hbuf in Hsplit.
      pose proof (step_read_line s l r Hpc Hsplit Hl Hfl Hh) as Hstep.
      set (s2 := {| process := call_readline (with_stdout (process s) r);
                    pc := AtRead; chunks := chunks s ++ [l];
                    guard_runs := guard_runs s |}).
      assert (Hstep2 : step (step s Proceed) Proceed = s2).
      { rewrite Hstep. reflexivity. }
      destruct (IH s2) as (IHa & IHb & IHc);
        [simpl in *; lia | reflexivity | exact Hh | exact Hfr |].
      simpl in IHa, IHb, IHc. simpl List.length. split; [|split].
      * intros k Hk. destruct k as [|[|k]].
        -- simpl. now rewrite Hpc.
        -- simpl. now rewrite Hstep.
        -- simpl. fold (run (step (step s Proceed) Proceed) (repeat Proceed k)).
           rewrite Hstep2. apply IHa. lia.
      * replace (2 * S (List.length (lines_of r)) + 1)
          with (S (S (2 * List.length (lines_of r) + 1))) by lia.
        simpl repeat. simpl run.
        fold (run (step (step s Proceed) Proceed)
                  (repeat Proceed (2 * List.length (lines_of r) + 1))).
        rewrite Hstep2. destruct IHb as (H1 & H2 & H3).
        split; [exact H1|]. split; [exact H2|].
        rewrite H3. now rewrite <- app_assoc.
      * intros m.
        replace (2 * S (List.length (lines_of r)) + 2 + m)
          with (S (S (2 * List.length (lines_of r) + 2 + m))) by lia.
        simpl repeat. simpl run.
        fold (run (step (step s Proceed) Proceed)
                  (repeat Proceed (2 * List.length (lines_of r) + 2 + m))).
        rewrite Hstep2. destruct (IHc m) as [Hd Hc]. split; [exact Hd|].
        rewrite Hc. now rewrite <- app_assoc.
Qed.

(** *** The handler *)

Lemma handle_trace (env : Env) (request : Request) :
  snd (handle_sse_connection env request) =
  map Exists (Resolve.probes (fs env) (module_file env) (sys_path env)) ++
  [Spawn (build_cmd (Resolve.cli_path (fs env) (module_file env) (sys_path env)))
         PIPE PIPE PIPE].
Proof.
  unfold handle_sse_connection, Resolve.probes, Resolve.cli_path.
  destruct (Resolve.resolve_cli_path _ _ _) as [c probed]. simpl.
  now destruct (create_subprocess_exec _ _ _ _ _).
Qed.

Lemma handle_outcome (env : Env) (request : Request) :
  let cmd := build_cmd
               (Resolve.cli_path (fs env) (module_file env) (sys_path env)) in
  fst (handle_sse_connection env request) =
  match os env cmd with
  | inl c =>
      Returns (Streaming
        {| body_iterator := stream_response (new_process cmd PIPE PIPE PIPE c);
           media_type := "text/event-stream";
           headers := [ ("Cache-Control", "no-cache");
                        ("Connection", "keep-alive") ] |})
  | inr e => Raises e
  end.
Proof.
  unfold handle_sse_connection, Resolve.cli_path, create_subprocess_exec.
  destruct (Resolve.resolve_cli_path _ _ _) as [c probed]. simpl.
  now destruct (os env (build_cmd c)).
Qed.

(** A session exists exactly when the spawn call succeeded, and it is the
    drain of the generator over the new handle. *)
Lemma session_of_handle (env : Env) (request : Request)
  (evs : list Event) (s : Session) :
  session_of (fst (handle_sse_connection env request)) evs = Some s ->
  let cmd := build_cmd
               (Resolve.cli_path (fs env) (module_file env) (sys_path env)) in
  exists c, os env cmd = inl c /\
            s = drive (stream_response (new_process cmd PIPE PIPE PIPE c)) evs.
Proof.
  intros H cmd. rewrite handle_outcome in H. fold cmd in H.
  destruct (os env cmd) as [c|e]; [|discriminate].
  exists c. simpl in H. split; [reflexivity | congruence].
Qed.

Lemma handle_ignores_request (env : Env) (r1 r2 : Request) :
  handle_sse_connection env r1 = handle_sse_connection env r2.
Proof. reflexivity. Qed.

(** *** Counting reads *)

Lemma reads_app (cs ds : list Call) : reads (cs ++ ds) = reads cs + reads ds.
Proof. unfold reads. now rewrite filter_app, length_app. Qed.

Lemma reads_cleanup (p : Process) : reads (calls (cleanup p)) = reads (calls p).
Proof.
  unfold cleanup, call_wait, terminate, with_call.
  destruct (returncode p); [reflexivity|].
  simpl. rewrite !reads_app.
  change (reads [Terminate]) with 0. change (reads [Wait]) with 0. lia.
Qed.

Lemma step_reads_inv (n0 : nat) (s : Session) (ev : Event) :
  reads_inv n0 s -> reads_inv n0 (step s ev).
Proof.
  unfold reads_inv. step_cases s ev; intros H; simpl in *;
    try by_returncode p;
    rewrite ?calls_collect; simpl;
    rewrite ?reads_app, ?length_app; simpl;
    try change (reads [Readline]) with 1;
    try change (reads [Terminate]) with 0;
    try change (reads [Wait]) with 0;
    try (destruct pending); auto; try lia.
Qed.

Lemma drive_reads_inv (p : Process) (evs : list Event) :
  reads_inv (reads (calls p)) (drive (stream_response p) evs).
Proof.
  unfold drive. apply (run_invariant (reads_inv (reads (calls p)))).
  - intros s ev. apply step_reads_inv.
  - unfold reads_inv. simpl. rewrite reads_app.
    change (reads [Readline]) with 1. lia.
Qed.

Lemma step_reads_mono (s : Session) (ev : Event) :
  reads (calls (process s)) <= reads (calls (process (step s ev))).
Proof.
  step_cases s ev; unfold finally_, with_process; simpl;
    rewrite ?reads_cleanup, ?calls_collect; simpl;
    rewrite ?reads_app; lia.
Qed.

Lemma drive_reads_positive (p : Process) (evs : list Event) :
  1 <= reads (calls (process (drive (stream_response p) evs))).
Proof.
  unfold drive.
  apply (run_invariant (fun s => 1 <= reads (calls (process s)))).
  - intros s ev Hs. pose proof (step_reads_mono s ev). lia.
  - simpl. rewrite reads_app. change (reads [Readline]) with 1. lia.
Qed.

(** *** The search for [cli.js] *)

Lemma scan_found (fs : FileSystem) (pre : list string) (dir : string)
  (post : list string) :
  (forall x, In x pre -> fs (candidate x) = false) ->
  fs (candidate dir) = true ->
  Resolve.scan fs (pre ++ dir :: post) =
    (Some (candidate dir), map candidate pre ++ [candidate dir]).
Proof.
  intros Hpre Hdir. induction pre as [|x pre IH]; simpl.
  - fold (candidate dir). now rewrite Hdir.
  - fold (candidate x). rewrite (Hpre x) by now left.
    rewrite IH; [reflexivity|]. intros y Hy. apply Hpre. now right.
Qed.

Lemma scan_none (fs : FileSystem) (sys_path : list string) :
  (forall x, In x sys_path -> fs (candidate x) = false) ->
  Resolve.scan fs sys_path = (None, map candidate sys_path).
Proof.
  intros H. induction sys_path as [|x rest IH]; simpl; [reflexivity|].
  fold (candidate x). rewrite (H x) by now left.
  rewrite IH; [reflexivity|]. intros y Hy. apply H. now right.
Qed.

(** *** Routing *)

Lemma route_mcp (r : Request) :
  mcp_request r ->
  route r = Some mcp_sse_endpoint \/ route r = Some mcp_api_endpoint.
Proof.
  intros [Hm Hp]. unfold route, matches, routes. simpl.
  destruct Hm as [Hm|Hm], Hp as [Hp|Hp]; rewrite Hm, Hp; simpl; auto.
Qed.

Lemma dispatch_mcp (env : Env) (r : Request) :
  mcp_request r -> dispatch env r = handle_sse_connection env r.
Proof.
  intros H. unfold dispatch.
  destruct (route_mcp r H) as [E|E]; rewrite E; reflexivity.
Qed.

(* ================================================================== *)
(** ** The claims *)
(* ================================================================== *)

(** C3. Executable resolution.  The default path is probed first.  When it
    exists it is the result and nothing else is probed.  When it is absent
    the search path is scanned in order, the candidate of the first
    directory that holds [cli.js] is the result and the scan stops there;
    when no directory holds it the default path is kept.  Whatever the
    result, the handler goes on to the spawn call with it, unvalidated.  In
    particular, with the default path absent and the search path [d1; d2]
    where only [d2] holds the file, the result is [d2/cli.js]. *)
Theorem C3_executable_resolution
  (fs : FileSystem) (module_file : string) (sys_path : list string) :
  let d := Resolve.default_cli_path module_file in
  let resolved := Resolve.cli_path fs module_file sys_path in
  let probed := Resolve.probes fs module_file sys_path in
  hd_error probed = Some d /\
  (fs d = true -> resolved = d /\ probed = [d]) /\
  (fs d = false ->
     (forall pre dir post,
        sys_path = pre ++ dir :: post ->
        (forall x, In x pre -> fs (candidate x) = false) ->
        fs (candidate dir) = true ->
        resolved = candidate dir /\
        probed = d :: map candidate pre ++ [candidate dir]) /\
     ((forall x, In x sys_path -> fs (candidate x) = false) ->
        resolved = d /\ probed = d :: map candidate sys_path)) /\
  (forall os request,
     snd (handle_sse_connection (mkEnv module_file sys_path fs os) request) =
       map Exists probed ++ [Spawn (build_cmd resolved) PIPE PIPE PIPE] /\
     nth_error (build_cmd resolved) 1 = Some (PurePath.str resolved)) /\
  (forall d1 d2,
     sys_path = [d1; d2] ->
     fs d = false -> fs (candidate d1) = false -> fs (candidate d2) = true ->
     resolved = PurePath.of_str d2 // "cli.js").
Proof.
  intros d resolved probed.
  assert (Hfound : fs d = false ->
            forall pre dir post,
              sys_path = pre ++ dir :: post ->
              (forall x, In x pre -> fs (candidate x) = false) ->
              fs (candidate dir) = true ->
              resolved = candidate dir /\
              probed = d :: map candidate pre ++ [candidate dir]).
  { intros Hd pre dir post Hsp Hpre Hdir.
    unfold resolved, probed, Resolve.cli_path, Resolve.probes,
      Resolve.resolve_cli_path.
    fold d. rewrite Hd, Hsp. simpl.
    rewrite (scan_found fs pre dir post Hpre Hdir). now split. }
  assert (Hnone : fs d = false ->
            (forall x, In x sys_path -> fs (candidate x) = false) ->
            resolved = d /\ probed = d :: map candidate sys_path).
  { intros Hd Hall.
    unfold resolved, probed, Resolve.cli_path, Resolve.probes,
      Resolve.resolve_cli_path.
    fold d. rewrite Hd. simpl.
    rewrite (scan_none fs sys_path Hall). now split. }
  split; [|split; [|split; [|split]]].
  - unfold probed, Resolve.probes, Resolve.resolve_cli_path. fold d.
    destruct (fs d); simpl; [reflexivity|].
    destruct (Resolve.scan fs sys_path) as [[t|] pr]; reflexivity.
  - intros Hd.
    unfold resolved, probed, Resolve.cli_path, Resolve.probes,
      Resolve.resolve_cli_path.
    fold d. rewrite Hd. now split.
  - intros Hd. split; [exact (Hfound Hd) | exact (Hnone Hd)].
  - intros os0 request. split; [|reflexivity].
    apply (handle_trace (mkEnv module_file sys_path fs os0)).
  - intros d1 d2 Hsp Hd H1 H2.
    apply (Hfound Hd [d1] d2 []); [exact Hsp | | exact H2].
    intros x [Hx|[]]. now subst x.
Qed.

Lemma C3_executable_resolution_witness :
  fs_d2 (Resolve.default_cli_path app_py) = false /\
  fs_d2 (candidate "/d1") = false /\
  fs_d2 (candidate "/d2") = true /\
  PurePath.str (Resolve.cli_path fs_d2 app_py ["/d1"; "/d2"]) = "/d2/cli.js".
Proof.
  split; [reflexivity | split; [reflexivity | split; [reflexivity|]]].
  pose proof (C3_executable_resolution fs_d2 app_py ["/d1"; "/d2"]) as H.
  cbv zeta in H. destruct H as (_ & _ & _ & _ & H).
  rewrite (H "/d1" "/d2"); reflexivity.
Defined.

(** C5. The command line.  Every spawn request of the handler is [node],
    the resolved script and then exactly [--headless --browser chromium
    --no-sandbox --port 0]; the handler builds it once, makes one spawn call
    with it, and the command line of the session's process is that list
    whatever happens while the response is drained. *)
Theorem C5_command_line (env : Env) (request : Request) :
  let cli := Resolve.cli_path (fs env) (module_file env) (sys_path env) in
  let tr := snd (handle_sse_connection env request) in
  build_cmd cli = "node" :: PurePath.str cli :: fixed_arguments /\
  fixed_arguments =
    [ "--headless"; "--browser"; "chromium"; "--no-sandbox"; "--port"; "0" ] /\
  last tr (Exists cli) = Spawn (build_cmd cli) PIPE PIPE PIPE /\
  spawns tr = 1 /\
  (forall evs s,
     session_of (fst (handle_sse_connection env request)) evs = Some s ->
     args (process s) = "node" :: PurePath.str cli :: fixed_arguments).
Proof.
  intros cli tr. repeat split.
  - unfold tr. rewrite handle_trace. apply last_last.
  - unfold tr, spawns. rewrite handle_trace, filter_app, length_app. simpl.
    fold cli. induction (Resolve.probes _ _ _) as [|x xs IH]; simpl; auto.
  - intros evs s H.
    destruct (session_of_handle env request evs s H) as (c & _ & Hs).
    subst s. fold cli.
    destruct (drive_same_frame (new_process (build_cmd cli) PIPE PIPE PIPE c) evs)
      as (Hargs & _).
    rewrite <- Hargs. reflexivity.
Qed.

Lemma C5_command_line_witness :
  exists s,
    session_of (fst (handle_sse_connection env_d2 get_sse))
               [Proceed; Proceed; Raise CancelledError] = Some s /\
    args (process s) =
      [ "node"; "/d2/cli.js";
        "--headless"; "--browser"; "chromium"; "--no-sandbox"; "--port"; "0" ].
Proof.
  eexists. split; [reflexivity|].
  pose proof (C5_command_line env_d2 get_sse) as H. cbv zeta in H.
  destruct H as (_ & _ & _ & _ & H).
  exact (H [Proceed; Proceed; Raise CancelledError] _ eq_refl).
Defined.

(** C6. Route equivalence.  A GET or POST request on [/mcp/sse] or
    [/api/mcp/] is routed to one of the two streaming endpoints, both of
    which are [handle_sse_connection]; two such requests get the same
    outcome, the same effects and the same session, whichever path and verb
    each of them used. *)
Theorem C6_routes_equivalent (env : Env) (r1 r2 : Request) :
  mcp_request r1 -> mcp_request r2 ->
  (route r1 = Some mcp_sse_endpoint \/ route r1 = Some mcp_api_endpoint) /\
  (forall r, call mcp_sse_endpoint env r = handle_sse_connection env r /\
             call mcp_api_endpoint env r = handle_sse_connection env r) /\
  dispatch env r1 = handle_sse_connection env r1 /\
  dispatch env r1 = dispatch env r2 /\
  (forall evs,
     session_of (fst (dispatch env r1)) evs =
     session_of (fst (dispatch env r2)) evs).
Proof.
  intros H1 H2.
  assert (E : dispatch env r1 = dispatch env r2).
  { rewrite (dispatch_mcp env r1 H1), (dispatch_mcp env r2 H2).
    apply handle_ignores_request. }
  repeat split.
  - now apply route_mcp.
  - now apply dispatch_mcp.
  - exact E.
  - intros evs. now rewrite E.
Qed.

Lemma C6_routes_equivalent_witness :
  mcp_request get_sse /\ mcp_request post_api_hello /\
  dispatch env_d2 get_sse = dispatch env_d2 post_api_hello.
Proof.
  assert (H1 : mcp_request get_sse) by (split; simpl; auto).
  assert (H2 : mcp_request post_api_hello) by (split; simpl; auto).
  split; [exact H1|]. split; [exact H2|].
  exact (proj1 (proj2 (proj2 (proj2
           (C6_routes_equivalent env_d2 get_sse post_api_hello H1 H2))))).
Defined.

(** C9. Independence from the request.  Two requests handled in the same
    surroundings get the same outcome and effects, and the sessions of
    their responses agree under every course of events; the effects (the
    probes and the spawn request) do not depend on what the operating
    system answers either. *)
Theorem C9_request_independent (env : Env) (r1 r2 : Request) :
  handle_sse_connection env r1 = handle_sse_connection env r2 /\
  (forall evs,
     session_of (fst (handle_sse_connection env r1)) evs =
     session_of (fst (handle_sse_connection env r2)) evs) /\
  (forall os',
     snd (handle_sse_connection (with_os env os') r1) =
     snd (handle_sse_connection env r2)).
Proof.
  repeat split. intros os'. now rewrite !handle_trace.
Qed.

(** Nothing the handler or its generator does writes to the child's
    standard input, whatever the request carries. *)
Lemma stdin_never_written
  (env : Env) (request : Request) (evs : list Event) (s : Session) :
  session_of (fst (handle_sse_connection env request)) evs = Some s ->
  stdin_mode (process s) = PIPE /\ stdin_data (process s) = [].
Proof.
  intros H.
  destruct (session_of_handle env request evs s H) as (c & _ & Hs). subst s.
  destruct (drive_same_frame
              (new_process
                 (build_cmd (Resolve.cli_path (fs env) (module_file env)
                                              (sys_path env)))
                 PIPE PIPE PIPE c) evs)
    as (_ & Hmode & _ & _ & Hdata & _).
  rewrite <- Hmode, <- Hdata. now split.
Qed.

(** C4. The request body and the child's standard input.  A POST on
    [/api/mcp/] with the five bytes [hello] as body is answered by a
    session whose child has its standard input open as a pipe, and after
    the whole response has been drained and the generator has returned,
    not one byte has been written to it. *)
Theorem C4_request_body_not_forwarded :
  body post_api_hello = bytes "hello" /\
  exists s,
    session_of (fst (dispatch env_d2 post_api_hello)) (repeat Proceed 8)
      = Some s /\
    pc s = Done None /\
    stdin_mode (process s) = PIPE /\
    stdin_data (process s) = [].
Proof.
  split; [reflexivity|].
  eexists. split; [reflexivity|]. split; [reflexivity|].
  apply (stdin_never_written env_d2 post_api_hello (repeat Proceed 8)).
  reflexivity.
Qed.

(** C7, as stated, fails: for a GET on [/mcp/sse] the handler has made its
    spawn call by the time it returns the response, while the generator of
    the body has not been resumed once and no read was made on the child. *)
Lemma C7_spawned_before_first_read :
  exists r tr,
    handle_sse_connection env_d2 get_sse = (Returns (Streaming r), tr) /\
    spawns tr = 1 /\
    calls (gi_process (body_iterator r)) = [] /\
    stdout_data (gi_process (body_iterator r)) = out three_lines.
Proof. do 2 eexists. repeat split. Qed.

(** C7, amended.  The child is created by the request handler itself: the
    handler makes exactly one spawn call, as its last effect, before it
    returns.  The response it returns holds a generator that has not run:
    no call has been made on the handle, the child's output is unread and
    its status is not collected.  Reads happen only once the body is being
    drained, on that same process. *)
Theorem C7_spawned_by_handler (env : Env) (request : Request) :
  let cmd := build_cmd
               (Resolve.cli_path (fs env) (module_file env) (sys_path env)) in
  let tr := snd (handle_sse_connection env request) in
  spawns tr = 1 /\
  last tr (Spawn [] INHERIT INHERIT INHERIT) = Spawn cmd PIPE PIPE PIPE /\
  (forall r,
     fst (handle_sse_connection env request) = Returns (Streaming r) ->
     exists c,
       os env cmd = inl c /\
       gi_process (body_iterator r) = new_process cmd PIPE PIPE PIPE c /\
       calls (gi_process (body_iterator r)) = [] /\
       stdout_data (gi_process (body_iterator r)) = out c /\
       returncode (gi_process (body_iterator r)) = None) /\
  (forall evs s,
     session_of (fst (handle_sse_connection env request)) evs = Some s ->
     args (process s) = cmd /\ 1 <= reads (calls (process s))).
Proof.
  intros cmd tr. split; [|split; [|split]].
  - unfold tr, spawns. rewrite handle_trace, filter_app, length_app. simpl.
    induction (Resolve.probes _ _ _) as [|x xs IH]; simpl; auto.
  - unfold tr. rewrite handle_trace. apply last_last.
  - intros r Hr. rewrite handle_outcome in Hr. fold cmd in Hr.
    destruct (os env cmd) as [c|e]; [|discriminate].
    exists c. injection Hr as <-. repeat split.
  - intros evs s Hs.
    destruct (session_of_handle env request evs s Hs) as (c & _ & E).
    fold cmd in E. subst s. split.
    + destruct (drive_same_frame (new_process cmd PIPE PIPE PIPE c) evs)
        as (Hargs & _).
      now rewrite <- Hargs.
    + apply drive_reads_positive.
Qed.

Lemma C7_spawned_by_handler_witness :
  exists s,
    session_of (fst (handle_sse_connection env_d2 get_sse)) [] = Some s /\
    args (process s) = build_cmd (PurePath.of_str "/d2/cli.js") /\
    1 <= reads (calls (process s)).
Proof.
  eexists. split; [reflexivity|].
  pose proof (C7_spawned_by_handler env_d2 get_sse) as H. cbv zeta in H.
  destruct H as (_ & _ & _ & H).
  exact (H [] _ eq_refl).
Defined.

(** C8. Cleanup of a child that has already ended.  When [returncode] is
    set, the cleanup block returns the handle as it found it: no call is
    added, so neither [terminate] nor [wait] happens.  Leaving the [try]
    block then changes neither the process nor the chunks of the session,
    whether the loop is left by an exception or by the end of the stream. *)
Theorem C8_cleanup_noop_when_exited (s : Session) (rc : Z) :
  returncode (process s) = Some rc ->
  cleanup (process s) = process s /\
  calls (cleanup (process s)) = calls (process s) /\
  (forall r,
     process (finally_ s r) = process s /\ chunks (finally_ s r) = chunks s) /\
  (forall e,
     process (step s (Raise e)) = process s /\
     chunks (step s (Raise e)) = chunks s) /\
  (pc s = AtRead -> stdout_data (process s) = [] ->
     process (step s Proceed) = process s /\
     chunks (step s Proceed) = chunks s).
Proof.
  intros Hrc.
  assert (Hc : cleanup (process s) = process s).
  { unfold cleanup. now rewrite Hrc. }
  split; [exact Hc|]. split; [now rewrite Hc|]. split; [|split].
  - intros r. simpl. now rewrite Hc.
  - intros e. unfold step. destruct (pc s); simpl; rewrite ?Hc; now split.
  - intros Hpc Hbuf. unfold step, readline. rewrite Hpc, Hbuf. simpl.
    destruct (hung (process s)); simpl; [now split|].
    split; [|reflexivity].
    assert (E : with_stdout (process s) [] = process s).
    { destruct s as [p c cs g]. destruct p. simpl in *. now subst. }
    rewrite E. exact Hc.
Qed.

Lemma C8_cleanup_noop_when_exited_witness :
  let s := drive (stream_response
                    (new_process ["node"] PIPE PIPE PIPE three_lines))
                 [Proceed; ChildExit] in
  returncode (process s) = Some 0%Z /\
  process (step s (Raise GeneratorExit)) = process s /\
  guard_calls (calls (process (step s (Raise GeneratorExit)))) = [].
Proof.
  intros s. split; [reflexivity|].
  destruct (C8_cleanup_noop_when_exited s 0%Z eq_refl) as (_ & _ & _ & H & _).
  destruct (H GeneratorExit) as [Hp _].
  split; [exact Hp|]. rewrite Hp. reflexivity.
Defined.


(** C1, at two inputs the handler can receive.  First: a GET on
    [/mcp/sse] whose client goes away after the first chunk, so that the
    pending read is cancelled and, the cancellation still being in force,
    the [await process.wait()] of the cleanup is cancelled as well.  The
    generator then finishes with the child signalled and [wait] called, but
    with no exit status collected.  Second: the same request when the
    response is dropped before its body is iterated once.  None of the
    generator's code runs; the child that the handler spawned gets no
    signal and nobody waits for it. *)
Theorem C1_child_left_unreaped :
  option_map outcome
    (session_of (fst (handle_sse_connection env_d2 get_sse))
       [Proceed; Proceed; Raise CancelledError; Raise CancelledError])
  = Some (Done (Some CancelledError), 1, [Terminate; Wait], None, 0) /\
  match fst (handle_sse_connection env_d2 get_sse) with
  | Returns (Streaming r) =>
      outcome (never_started (body_iterator r))
      = (Done (Some GeneratorExit), 0, [], None, 0)
  | _ => False
  end.
Proof. split; reflexivity. Qed.

(** *** The reader's limit *)

Lemma filter_no_newline (a : list byte) :
  ~ In x0a a -> filter (fun b => negb (Byte.eqb b x0a)) a = a.
Proof.
  induction a as [|b a IH]; intros H; simpl; [reflexivity|].
  destruct (Byte.eqb b x0a) eqn:E.
  - apply Byte.byte_dec_bl in E. exfalso. apply H. now left.
  - simpl. rewrite IH; [reflexivity|]. intros Hin. apply H. now right.
Qed.

Lemma content_length_line (a : list byte) :
  ~ In x0a a -> content_length (a ++ [x0a]) = N.of_nat (List.length a).
Proof.
  intros H. unfold content_length.
  rewrite filter_app, (filter_no_newline a H). simpl.
  now rewrite app_nil_r.
Qed.

(** Every chunk was returned by a read: it is not empty and holds at most
    [limit] bytes before its newline. *)
Lemma step_chunks_fit (s : Session) (ev : Event) :
  Forall (fun c => c <> [] /\ (content_length c <= limit)%N) (chunks s) ->
  Forall (fun c => c <> [] /\ (content_length c <= limit)%N)
         (chunks (step s ev)).
Proof.
  step_cases s ev; intros H; simpl; try exact H.
  apply Forall_app. split; [exact H|]. constructor; [|constructor].
  split; [discriminate|]. now apply N.ltb_ge.
Qed.

(** A read that meets an over-long line leaves the loop with [ValueError]
    and yields nothing. *)
Lemma step_overrun (s : Session) :
  pc s = AtRead ->
  (limit < content_length (fst (split_line (stdout_data (process s)))))%N ->
  is_done (pc (step s Proceed)) = true /\
  chunks (step s Proceed) = chunks s /\
  (pc (step s Proceed) = AtWait (Some (OtherError "ValueError")) \/
   pc (step s Proceed) = Done (Some (OtherError "ValueError"))).
Proof.
  intros Hpc Hover. unfold step, readline. rewrite Hpc.
  destruct (split_line (stdout_data (process s))) as [line rest].
  simpl in Hover. apply N.ltb_lt in Hover. rewrite Hover.
  unfold finally_, with_process. simpl.
  destruct (returncode (process s)); simpl; auto.
Qed.

(** C2, as stated, fails: a child emits three lines and closes its stdout,
    the second line holding 65537 bytes before its newline.  The consumer
    gets the first line only; the read of the second raises [ValueError],
    which ends the loop, and the generator finishes with that exception. *)
Lemma C2_long_line_ends_the_stream :
  List.length (lines_of (out long_second_line)) = 3 /\
  view (drive (stream_response
                 (new_process ["node"] PIPE PIPE PIPE long_second_line))
              (repeat Proceed 8))
  = (Done (Some (OtherError "ValueError")), [ bytes "one" ++ [x0a] ]).
Proof. split; vm_compute; reflexivity. Qed.

(** C2, amended.  Under every course of events the chunks sent so far are
    the first lines of the child's output, in order and unchanged; none is
    empty and none holds more than 65536 bytes before its newline; and a
    generator that left the loop by its [break] has read the output to its
    end, sent every line of it and made one read per chunk and one more.  A
    read that meets a line with more than 65536 bytes before its newline
    raises [ValueError] instead: the loop is left through the cleanup and
    nothing is yielded.  When every line is within the limit, the child
    closes its stdout and nothing disturbs the drain, the loop is still
    running as long as at most two suspensions per line have gone by, is
    left by [break] with all lines sent at the next one, and the generator
    has returned after one more; for three lines within the limit followed
    by the end of the stream the consumer gets exactly these three chunks,
    in order, and then the end. *)
Theorem C2_relay_fifo_within_limit (p : Process) :
  let buf := stdout_data p in
  let g := stream_response p in
  (forall evs,
     let s := drive g evs in
     (exists rest, lines_of buf = chunks s ++ rest) /\
     (exists rest, buf = List.concat (chunks s) ++ rest) /\
     Forall (fun c => c <> [] /\ (content_length c <= limit)%N) (chunks s) /\
     (pc s = AtWait None \/ pc s = Done None ->
        stdout_data (process s) = [] /\ chunks s = lines_of buf /\
        reads (calls (process s)) =
          reads (calls p) + List.length (chunks s) + 1) /\
     (pc s = AtRead ->
      (limit < content_length
                 (fst (split_line (stdout_data (process s)))))%N ->
        is_done (pc (step s Proceed)) = true /\
        chunks (step s Proceed) = chunks s /\
        (pc (step s Proceed) = AtWait (Some (OtherError "ValueError")) \/
         pc (step s Proceed) = Done (Some (OtherError "ValueError"))))) /\
  (hung p = false ->
   Forall (fun l => (content_length l <= limit)%N) (lines_of buf) ->
   forall n,
     let s := drive g (repeat Proceed n) in
     (n <= 2 * List.length (lines_of buf) -> is_done (pc s) = false) /\
     (2 * List.length (lines_of buf) < n ->
        is_done (pc s) = true /\ chunks s = lines_of buf /\
        (pc s = AtWait None \/ pc s = Done None)) /\
     (2 * List.length (lines_of buf) + 1 < n -> pc s = Done None)) /\
  (forall a b c,
     hung p = false ->
     ~ In x0a a -> ~ In x0a b -> ~ In x0a c ->
     (N.of_nat (List.length a) <= limit)%N ->
     (N.of_nat (List.length b) <= limit)%N ->
     (N.of_nat (List.length c) <= limit)%N ->
     buf = a ++ x0a :: b ++ x0a :: c ++ [x0a] ->
     let s := drive g (repeat Proceed 8) in
     chunks s = [a ++ [x0a]; b ++ [x0a]; c ++ [x0a]] /\ pc s = Done None).
Proof.
  intros buf g.
  assert (Hrun : hung p = false ->
            Forall (fun l => (content_length l <= limit)%N) (lines_of buf) ->
            forall n,
              let s := drive g (repeat Proceed n) in
              (n <= 2 * List.length (lines_of buf) -> is_done (pc s) = false) /\
              (2 * List.length (lines_of buf) < n ->
                 is_done (pc s) = true /\ chunks s = lines_of buf /\
                 (pc s = AtWait None \/ pc s = Done None)) /\
              (2 * List.length (lines_of buf) + 1 < n -> pc s = Done None)).
  { intros Hh Hfit n s.
    destruct (undisturbed_run (List.length buf) (start g))
      as (Ha & Hb & Hc); [reflexivity | reflexivity | exact Hh | exact Hfit |].
    change (stdout_data (process (start g))) with buf in Ha, Hb, Hc.
    cbv zeta in Hb, Hc.
    split; [|split].
    - intros Hn. apply Ha, Hn.
    - intros Hn.
      destruct (Nat.eq_dec n (2 * List.length (lines_of buf) + 1)) as [E|E].
      + unfold s, drive. rewrite E. destruct Hb as (H1 & H2 & H3).
        split; [exact H1|]. split; [exact H3 | exact H2].
      + assert (En : 2 * List.length (lines_of buf) + 2
                     + (n - 2 * List.length (lines_of buf) - 2) = n) by lia.
        pose proof (Hc (n - 2 * List.length (lines_of buf) - 2)) as [H1 H2].
        rewrite En in H1, H2.
        unfold s, drive. rewrite H1.
        split; [reflexivity|]. split; [exact H2 | now right].
    - intros Hn.
      assert (En : 2 * List.length (lines_of buf) + 2
                   + (n - 2 * List.length (lines_of buf) - 2) = n) by lia.
      pose proof (Hc (n - 2 * List.length (lines_of buf) - 2)) as [H1 _].
      rewrite En in H1. exact H1. }
  split; [|split].
  - intros evs s.
    pose proof (drive_fifo_inv p evs) as Hf. fold g buf s in Hf.
    destruct (fifo_prefix buf s Hf) as (rest & Hl).
    split; [now exists rest|]. split.
    { exists (List.concat rest).
      now rewrite <- (lines_of_concat buf), Hl, concat_app. }
    split.
    { unfold s, drive.
      apply (run_invariant
               (fun t => Forall (fun c => c <> [] /\
                                          (content_length c <= limit)%N)
                                (chunks t))).
      - intros t ev. apply step_chunks_fit.
      - constructor. }
    split.
    { intros Hpc.
      pose proof (drive_reads_inv p evs) as Hr. fold g s in Hr.
      unfold reads_inv in Hr. unfold fifo_inv in Hf.
      destruct Hpc as [Hpc|Hpc]; rewrite Hpc in Hf, Hr;
        destruct Hf as [Hc Hb]; now repeat split. }
    intros Hpc Hover. now apply step_overrun.
  - exact Hrun.
  - intros a b c Hh Ha Hb Hc La Lb Lc Hbuf s.
    assert (Hlines : lines_of buf = [a ++ [x0a]; b ++ [x0a]; c ++ [x0a]]).
    { rewrite Hbuf.
      rewrite (lines_of_line a _ Ha), (lines_of_line b _ Hb).
      rewrite (lines_of_line c [] Hc). reflexivity. }
    assert (Hfit : Forall (fun l => (content_length l <= limit)%N)
                          (lines_of buf)).
    { rewrite Hlines. repeat constructor;
        rewrite content_length_line by assumption; assumption. }
    destruct (Hrun Hh Hfit 8) as (_ & H7 & H8). fold s in H7, H8.
    rewrite Hlines in H7, H8. simpl in H7, H8.
    destruct H7 as (_ & Hch & _); [lia|]. split; [exact Hch|].
    apply H8. lia.
Qed.

Lemma C2_relay_fifo_within_limit_witness :
  let s := drive (stream_response
                    (new_process ["node"] PIPE PIPE PIPE three_lines))
                 (repeat Proceed 8) in
  chunks s = [ bytes "one" ++ [x0a]; bytes "two" ++ [x0a];
               bytes "three" ++ [x0a] ] /\
  pc s = Done None.
Proof.
  pose proof (C2_relay_fifo_within_limit
                (new_process ["node"] PIPE PIPE PIPE three_lines)) as H.
  cbv zeta in H. destruct H as (_ & _ & H).
  apply (H (bytes "one") (bytes "two") (bytes "three")).
  - reflexivity.
  - simpl. intuition discriminate.
  - simpl. intuition discriminate.
  - simpl. intuition discriminate.
  - vm_compute. discriminate.
  - vm_compute. discriminate.
  - vm_compute. discriminate.
  - reflexivity.
Defined.

(** *** Programs and the undrained standard error *)

Lemma emit_fits (ws : list Write) :
  forall room, (stderr_total ws <= room)%N ->
  emit room ws = (stdout_of ws, stderr_of ws, false).
Proof.
  induction ws as [|[data|data] rest IH]; intros room H; simpl in *.
  - reflexivity.
  - now rewrite (IH room H).
  - assert (Hn : (N.of_nat (List.length data) <=? room)%N = true).
    { apply N.leb_le. lia. }
    rewrite Hn. rewrite IH by lia. reflexivity.
Qed.

Lemma emit_silent (ws : list Write) (room : N) :
  emit room (filter (fun w => match w with
                              | ToStdout _ => true
                              | ToStderr _ => false
                              end) ws)
  = (stdout_of ws, [], false).
Proof.
  induction ws as [|[data|data] rest IH]; simpl.
  - reflexivity.
  - now rewrite IH.
  - exact IH.
Qed.

(** C10, as stated, fails: a program prints a line, writes 256 KiB to its
    standard error and prints a second line, on a system where the undrained
    standard error takes 192 KiB.  The consumer gets the first line and is
    then kept waiting in the read, which neither returns nor ends; the same
    program without its writes to standard error delivers both lines and
    the end of the stream. *)
Lemma C10_chatty_child_starves_stdout :
  option_map view
    (session_of (fst (handle_sse_connection env_chatty get_sse))
                (repeat Proceed 6))
  = Some (AtRead, [ bytes "one" ++ [x0a] ]) /\
  option_map view
    (session_of (fst (handle_sse_connection env_chatty_silenced get_sse))
                (repeat Proceed 6))
  = Some (Done None, [ bytes "one" ++ [x0a]; bytes "two" ++ [x0a] ]).
Proof. split; vm_compute; reflexivity. Qed.

(** C10, amended.  The spawn request opens stderr as a pipe, and under every
    course of events the bytes that pipe took are still all unread, while
    the chunks sent are, in order, the first bytes of what arrived on the
    child's stdout.  As long as everything the program writes to its
    standard error fits into the undrained pipe, the consumer sees the same
    chunks and the same end of the stream as if the program wrote nothing
    there. *)
Theorem C10_stderr_never_read_within_room (env : Env) (request : Request) :
  let cmd := build_cmd
               (Resolve.cli_path (fs env) (module_file env) (sys_path env)) in
  In (Spawn cmd PIPE PIPE PIPE) (snd (handle_sse_connection env request)) /\
  (forall evs s,
     session_of (fst (handle_sse_connection env request)) evs = Some s ->
     exists c,
       os env cmd = inl c /\
       stderr_mode (process s) = PIPE /\
       stderr_data (process s) = err c /\
       exists rest, out c = List.concat (chunks s) ++ rest) /\
  (forall room programs,
     (forall prog, programs cmd = inl prog ->
                   (stderr_total (writes prog) <= room)%N) ->
     forall evs,
       option_map view
         (session_of
            (fst (handle_sse_connection
                    (with_os env (os_of room programs)) request)) evs) =
       option_map view
         (session_of
            (fst (handle_sse_connection
                    (with_os env (os_of room (silenced programs))) request))
            evs)).
Proof.
  intros cmd. split; [|split].
  - rewrite handle_trace. apply in_or_app. right. now left.
  - intros evs s Hs.
    destruct (session_of_handle env request evs s Hs) as (c & Hos & E).
    fold cmd in Hos, E. exists c. split; [exact Hos|]. subst s.
    set (p := new_process cmd PIPE PIPE PIPE c).
    destruct (drive_same_frame p evs) as (_ & _ & _ & Hmode & _ & Herr & _).
    rewrite <- Hmode, <- Herr. split; [reflexivity|]. split; [reflexivity|].
    destruct (fifo_prefix _ _ (drive_fifo_inv p evs)) as (rest & Hl).
    exists (List.concat rest). change (out c) with (stdout_data p).
    now rewrite <- (lines_of_concat (stdout_data p)), Hl, concat_app.
  - intros room programs Hroom evs. rewrite !handle_outcome.
    simpl. fold cmd. unfold os_of, silenced.
    destruct (programs cmd) as [prog|e] eqn:Hp; [|reflexivity].
    simpl. unfold view, drive, launch, silent. simpl writes.
    rewrite (emit_fits _ room (Hroom prog eq_refl)), emit_silent.
    set (p := new_process cmd PIPE PIPE PIPE _).
    set (q := new_process cmd PIPE PIPE PIPE _).
    destruct (run_same_view evs (start (stream_response p))
                (start (stream_response q))) as (Hpc & Hch & _).
    { unfold same_view. simpl. tauto. }
    now rewrite Hpc, Hch.
Qed.

Lemma C10_stderr_never_read_within_room_witness :
  (stderr_total (writes chatty) <= 262144)%N /\
  option_map view
    (session_of
       (fst (handle_sse_connection
               (with_os env_d2 (os_of 262144 (fun _ => inl chatty))) get_sse))
       (repeat Proceed 6)) =
  option_map view
    (session_of
       (fst (handle_sse_connection
               (with_os env_d2
                  (os_of 262144 (silenced (fun _ => inl chatty)))) get_sse))
       (repeat Proceed 6)).
Proof.
  assert (H : (stderr_total (writes chatty) <= 262144)%N).
  { vm_compute. discriminate. }
  split; [exact H|].
  pose proof (C10_stderr_never_read_within_room env_d2 get_sse) as T.
  cbv zeta in T. destruct T as (_ & _ & T).
  apply (T 262144%N (fun _ => inl chatty)).
  intros prog Hp. injection Hp as <-. exact H.
Defined.

(** *** The model on the example surroundings *)

Example path_examples :
  PurePath.str (Resolve.default_cli_path app_py) = "/app/cli.js" /\
  PurePath.str (PurePath.of_str "" // "cli.js") = "cli.js" /\
  PurePath.str (PurePath.of_str "/opt/site-packages/" // "cli.js")
    = "/opt/site-packages/cli.js" /\
  PurePath.str (PurePath.of_str "./a//b/." // "cli.js") = "a/b/cli.js".
Proof. repeat split. Qed.

Example exit_paths :
  let g := stream_response (new_process ["node"] PIPE PIPE PIPE three_lines) in
  outcome (drive g (repeat Proceed 7))
    = (AtWait None, 1, [Terminate; Wait], None, 0) /\
  outcome (drive g (repeat Proceed 8))
    = (Done None, 1, [Terminate; Wait], Some (-15)%Z, 1) /\
  outcome (drive g [Proceed; Proceed; Raise (OtherError "OSError"); Proceed])
    = (Done (Some (OtherError "OSError")), 1, [Terminate; Wait],
       Some (-15)%Z, 1) /\
  outcome (drive g [Raise CancelledError; ChildExit; Proceed])
    = (Done (Some CancelledError), 1, [Terminate; Wait], Some (-15)%Z, 1) /\
  outcome (drive g [Proceed; Raise GeneratorExit])
    = (AtWait (Some GeneratorExit), 1, [Terminate; Wait], None, 0) /\
  outcome (drive g [Proceed; ChildExit; Raise GeneratorExit])
    = (Done (Some GeneratorExit), 1, [], Some 0%Z, 1) /\
  outcome (drive g [Proceed; Proceed]) = (AtRead, 0, [], None, 0).
Proof. repeat split. Qed.

(* ================================================================== *)
(** ** Further properties of the code *)
(* ================================================================== *)

(** *** Routing *)



Lemma route_complete (r : Request) (ep : Endpoint) :
  In (url_path r, method r, ep) routes -> route r = Some ep.
Proof.
  unfold routes. simpl. intros H.
  repeat (destruct H as [H|H]; [
    injection H as Hp Hm He; unfold route, routes; simpl;
    rewrite <- Hp, <- Hm; simpl; now subst |]).
  contradiction.
Qed.

Lemma spawns_handle (env : Env) (request : Request) :
  spawns (snd (handle_sse_connection env request)) = 1.
Proof.
  unfold spawns. rewrite handle_trace, filter_app, length_app. simpl.
  induction (Resolve.probes _ _ _) as [|x xs IH]; simpl; auto.
Qed.




(** X3. A failed spawn.  When the operating system refuses the spawn with
    an exception, the handler raises that exception unchanged: there is no
    response and no session, and the one spawn call that was made is not
    repeated.  When the spawn succeeds the handler returns an event-stream
    response with caching disabled and the connection kept alive. *)
Theorem X3_spawn_failure_propagates (env : Env) (request : Request) :
  let cmd := build_cmd
               (Resolve.cli_path (fs env) (module_file env) (sys_path env)) in
  (forall e,
     os env cmd = inr e ->
     fst (handle_sse_connection env request) = Raises e /\
     spawns (snd (handle_sse_connection env request)) = 1 /\
     forall evs,
       session_of (fst (handle_sse_connection env request)) evs = None) /\
  (forall c,
     os env cmd = inl c ->
     exists r,
       fst (handle_sse_connection env request) = Returns (Streaming r) /\
       media_type r = "text/event-stream" /\
       headers r = [ ("Cache-Control", "no-cache");
                     ("Connection", "keep-alive") ]).
Proof.
  intros cmd. split.
  - intros e He. rewrite handle_outcome. fold cmd. rewrite He.
    split; [reflexivity|]. split; [apply spawns_handle | reflexivity].
  - intros c Hc. rewrite handle_outcome. fold cmd. rewrite Hc.
    eexists. split; [reflexivity|]. now split.
Qed.

Lemma X3_spawn_failure_propagates_witness :
  fst (handle_sse_connection
         (with_os env_d2 (fun _ => inr FileNotFoundError)) get_sse)
  = Raises FileNotFoundError.
Proof.
  pose proof (X3_spawn_failure_propagates
                (with_os env_d2 (fun _ => inr FileNotFoundError)) get_sse) as H.
  cbv zeta in H. destruct H as [H _].
  exact (proj1 (H FileNotFoundError eq_refl)).
Defined.

(** *** The search for [cli.js], continued *)

(** What the scan returns: a hit is the candidate of the first directory
    that holds the file, and the probes end with it; without a hit every
    candidate was probed and found absent. *)
Lemma scan_spec (fs : FileSystem) (sys_path : list string) :
  match Resolve.scan fs sys_path with
  | (Some t, probed) =>
      fs t = true /\
      exists pre dir post,
        sys_path = pre ++ dir :: post /\
        (forall x, In x pre -> fs (candidate x) = false) /\
        t = candidate dir /\
        probed = map candidate pre ++ [t]
  | (None, probed) =>
      (forall x, In x sys_path -> fs (candidate x) = false) /\
      probed = map candidate sys_path
  end.
Proof.
  induction sys_path as [|x rest IH]; simpl.
  - split; [intros x []|reflexivity].
  - fold (candidate x). destruct (fs (candidate x)) eqn:Hx.
    + split; [exact Hx|]. exists [], x, rest. repeat split. intros y [].
    + destruct (Resolve.scan fs rest) as [[t|] probed].
      * destruct IH as (Ht & pre & dir & post & Hsp & Hpre & Hd & Hpr).
        split; [exact Ht|]. exists (x :: pre), dir, post. repeat split.
        -- now rewrite Hsp.
        -- intros y [Hy|Hy]; [now subst y | now apply Hpre].
        -- exact Hd.
        -- now rewrite Hpr.
      * destruct IH as [Hall Hpr]. split.
        -- intros y [Hy|Hy]; [now subst y | now apply Hall].
        -- now rewrite Hpr.
Qed.

Lemma join_cli_js (p : PurePath.Path) :
  p // "cli.js" =
  {| PurePath.root := PurePath.root p;
     PurePath.parts := PurePath.parts p ++ ["cli.js"] |}.
Proof. reflexivity. Qed.

(** X4. The search finds the script whenever there is one.  The resolved
    path exists on the file system exactly when the default path exists or
    some directory of the search path holds [cli.js]; the handler goes on
    with a missing path only when there was nothing to find. *)
Theorem X4_resolution_finds_existing
  (fs : FileSystem) (module_file : string) (sys_path : list string) :
  fs (Resolve.cli_path fs module_file sys_path) = true <->
  (fs (Resolve.default_cli_path module_file) = true \/
   exists dir, In dir sys_path /\ fs (candidate dir) = true).
Proof.
  unfold Resolve.cli_path, Resolve.resolve_cli_path.
  destruct (fs (Resolve.default_cli_path module_file)) eqn:Hd; simpl.
  - rewrite Hd. split; auto.
  - pose proof (scan_spec fs sys_path) as Hs.
    destruct (Resolve.scan fs sys_path) as [[t|] probed]; simpl.
    + destruct Hs as (Ht & pre & dir & post & Hsp & _ & Heq & _).
      split; [|intros _; exact Ht].
      intros _. right. exists dir. split.
      * rewrite Hsp. apply in_or_app. right. now left.
      * now rewrite <- Heq.
    + destruct Hs as [Hall _]. rewrite Hd. split; [discriminate|].
      intros [H|(dir & Hin & Hdir)]; [discriminate|].
      rewrite (Hall dir Hin) in Hdir. discriminate.
Qed.

(** X5. The script is always called [cli.js].  Whichever branch the
    resolution takes, the resolved path is the default path or the
    candidate of a directory of the search path, its last component is
    [cli.js], and that path, as text, is the second word of the command. *)
Theorem X5_resolved_path_named_cli_js
  (fs : FileSystem) (module_file : string) (sys_path : list string) :
  let resolved := Resolve.cli_path fs module_file sys_path in
  (resolved = Resolve.default_cli_path module_file \/
   exists dir, In dir sys_path /\ resolved = candidate dir) /\
  (exists base, PurePath.parts resolved = base ++ ["cli.js"]) /\
  nth_error (build_cmd resolved) 1 = Some (PurePath.str resolved).
Proof.
  intros resolved.
  assert (H : resolved = Resolve.default_cli_path module_file \/
              exists dir, In dir sys_path /\ resolved = candidate dir).
  { unfold resolved, Resolve.cli_path, Resolve.resolve_cli_path.
    destruct (fs (Resolve.default_cli_path module_file)); simpl; [now left|].
    pose proof (scan_spec fs sys_path) as Hs.
    destruct (Resolve.scan fs sys_path) as [[t|] probed]; simpl; [|now left].
    destruct Hs as (_ & pre & dir & post & Hsp & _ & Heq & _).
    right. exists dir. split; [|exact Heq].
    rewrite Hsp. apply in_or_app. right. now left. }
  split; [exact H|]. split; [|reflexivity].
  destruct H as [H|(dir & _ & H)]; rewrite H.
  - unfold Resolve.default_cli_path. rewrite join_cli_js. simpl. eauto.
  - unfold candidate. rewrite join_cli_js. simpl. eauto.
Qed.

(** X6. The search stops at the first hit.  [exists()] is called at most
    once for the default path and once per directory of the search path;
    every call but the last answered no; and when the last call answered
    yes the path it was asked about is the resolved one. *)
Theorem X6_probes_stop_at_first_hit
  (fs : FileSystem) (module_file : string) (sys_path : list string) :
  let probed := Resolve.probes fs module_file sys_path in
  let resolved := Resolve.cli_path fs module_file sys_path in
  List.length probed <= 1 + List.length sys_path /\
  (forall before p after,
     probed = before ++ p :: after -> after <> [] -> fs p = false) /\
  (forall before p,
     probed = before ++ [p] -> fs p = true -> resolved = p).
Proof.
  intros probed resolved.
  unfold probed, resolved, Resolve.probes, Resolve.cli_path,
    Resolve.resolve_cli_path.
  set (d := Resolve.default_cli_path module_file).
  destruct (fs d) eqn:Hd; simpl.
  - split; [lia|]. split.
    + intros before p after E Hne.
      destruct before as [|b before]; simpl in E.
      * injection E as _ E. now subst after.
      * injection E as _ E. now destruct before.
    + intros before p E _.
      destruct before as [|b before]; simpl in E.
      * now injection E as ->.
      * injection E as _ E. now destruct before.
  - pose proof (scan_spec fs sys_path) as Hs.
    destruct (Resolve.scan fs sys_path) as [[t|] pr]; simpl.
    + destruct Hs as (Ht & pre & dir & post & Hsp & Hpre & Heq & Hpr).
      assert (Habsent : forall q, In q (d :: map candidate pre) -> fs q = false).
      { intros q [Hq|Hq]; [now subst q|].
        apply in_map_iff in Hq. destruct Hq as (x & <- & Hx). now apply Hpre. }
      split; [|split].
      * rewrite Hpr, Hsp, !length_app, length_map. simpl. lia.
      * intros before p after E Hne. apply Habsent.
        rewrite Hpr in E.
        change (d :: map candidate pre ++ [t])
          with ((d :: map candidate pre) ++ [t]) in E.
        destruct (exists_last Hne) as (after' & z & ->).
        change (before ++ p :: after' ++ [z])
          with (before ++ (p :: after') ++ [z]) in E.
        rewrite app_assoc in E. apply app_inj_tail in E.
        destruct E as [E _]. rewrite E. apply in_or_app. right. now left.
      * intros before p E _. rewrite Hpr in E.
        change (d :: map candidate pre ++ [t])
          with ((d :: map candidate pre) ++ [t]) in E.
        apply app_inj_tail in E. now destruct E as [_ ->].
    + destruct Hs as [Hall Hpr].
      assert (Habsent : forall q, In q (d :: pr) -> fs q = false).
      { intros q [Hq|Hq]; [now subst q|]. rewrite Hpr in Hq.
        apply in_map_iff in Hq. destruct Hq as (x & <- & Hx). now apply Hall. }
      split; [|split].
      * rewrite Hpr, length_map. lia.
      * intros before p after E _. apply Habsent. rewrite E.
        apply in_or_app. right. now left.
      * intros before p E Hp. exfalso.
        rewrite (Habsent p) in Hp; [discriminate|].
        rewrite E. apply in_or_app. right. now left.
Qed.

Lemma X6_probes_stop_at_first_hit_witness :
  Resolve.probes fs_d2 app_py ["/d1"; "/d2"; "/d3"] =
    [ Resolve.default_cli_path app_py; candidate "/d1" ] ++ [ candidate "/d2" ] /\
  fs_d2 (candidate "/d2") = true /\
  Resolve.cli_path fs_d2 app_py ["/d1"; "/d2"; "/d3"] = candidate "/d2".
Proof.
  split; [reflexivity|]. split; [reflexivity|].
  pose proof (X6_probes_stop_at_first_hit fs_d2 app_py ["/d1"; "/d2"; "/d3"])
    as H.
  cbv zeta in H. destruct H as (_ & _ & H).
  exact (H [ Resolve.default_cli_path app_py; candidate "/d1" ]
           (candidate "/d2") eq_refl eq_refl).
Defined.


Lemma X4_resolution_finds_existing_witness :
  fs_d2 (candidate "/d2") = true /\
  fs_d2 (Resolve.cli_path fs_d2 app_py ["/d1"; "/d2"]) = true.
Proof.
  split; [reflexivity|].
  apply (proj2 (X4_resolution_finds_existing fs_d2 app_py ["/d1"; "/d2"])).
  right. exists "/d2". split; [simpl; auto | reflexivity].
Defined.

(** *** The guard, continued *)

Lemma finally_alive_inv (s : Session) (r : option Exn) :
  returncode (process s) = None ->
  guard_calls (calls (process s)) = [] ->
  alive_inv (finally_ s r).
Proof.
  intros Hr Hg. unfold alive_inv, finally_. simpl. rewrite Hr.
  now destruct (cleanup_signals _ Hr Hg).
Qed.

Lemma step_alive_inv (s : Session) (ev : Event) :
  ev <> ChildExit -> alive_inv s -> alive_inv (step s ev).
Proof.
  unfold alive_inv at 1. intros Hev.
  step_cases s ev; simpl; try congruence; intros H;
    try (now apply finally_alive_inv);
    try (unfold alive_inv, with_process; cbn [pc process];
         rewrite ?calls_collect; exact H).
  destruct H as [Hr Hg]. unfold alive_inv. simpl. split; [exact Hr|].
  now rewrite guard_calls_app, Hg.
Qed.

Lemma cleanup_ended (p : Process) :
  returncode p <> None -> cleanup p = p.
Proof. unfold cleanup. now destruct (returncode p). Qed.

Lemma collect_ended (p : Process) :
  returncode p <> None -> collect p = p.
Proof. unfold collect. now destruct (returncode p). Qed.

Lemma step_ended_inv (s : Session) (ev : Event) :
  ended_inv s -> ended_inv (step s ev).
Proof.
  unfold ended_inv.
  step_cases s ev; simpl; intros [Hr Hg];
    unfold finally_, with_process; simpl;
    rewrite ?cleanup_ended, ?collect_ended by (simpl; congruence);
    simpl; try (now split).
  split; [exact Hr|]. now rewrite guard_calls_app, Hg.
Qed.

Lemma run_alive_inv (evs : list Event) (s : Session) :
  Forall (fun ev => ev <> ChildExit) evs -> alive_inv s ->
  alive_inv (run s evs).
Proof.
  revert s. induction evs as [|ev evs IH]; intros s Hall Hs; simpl.
  - exact Hs.
  - inversion Hall; subst. apply IH; [assumption|].
    now apply step_alive_inv.
Qed.

(** X7. The termination signal goes to a live child and to no other.  Take
    a newly started child.  If the event loop never saw it exit while the
    response was drained, then a generator that has left the relay loop has
    called [terminate] and then [wait], once each.  If the event loop saw it exit
    while the generator was still running, then neither [terminate] nor
    [wait] is ever called, whatever happens afterwards. *)
Theorem X7_terminate_iff_child_alive
  (cmd : list string) (i o e : Stdio) (c : Child) :
  let g := stream_response (new_process cmd i o e c) in
  (forall evs,
     Forall (fun ev => ev <> ChildExit) evs ->
     is_done (pc (drive g evs)) = true ->
     guard_calls (calls (process (drive g evs))) = [Terminate; Wait]) /\
  (forall evs1 evs2,
     is_done (pc (drive g evs1)) = false ->
     let s := drive g (evs1 ++ ChildExit :: evs2) in
     guard_calls (calls (process s)) = [] /\
     returncode (process s) = Some (exit_status c)).
Proof.
  intros g. split.
  - intros evs Hall Hd.
    assert (H : alive_inv (drive g evs)).
    { unfold drive. apply run_alive_inv; [exact Hall|]. now split. }
    unfold alive_inv in H. now destruct (pc (drive g evs)).
  - intros evs1 evs2 Hnd s.
    pose proof (drive_guard_inv cmd i o e c evs1) as Hg. fold g in Hg.
    assert (He : ended_inv (step (drive g evs1) ChildExit)).
    { destruct Hg as [Hst Hg]. unfold ended_inv, step.
      destruct (pc (drive g evs1)); try discriminate; simpl;
        destruct Hg as [_ Hc];
        (split; [|now rewrite calls_collect]);
        unfold collect, status_inv in *;
        destruct (returncode (process (drive g evs1))) as [rc|] eqn:Er;
        try (simpl; rewrite signalled_guard_calls, Hc; reflexivity);
        (destruct Hst as [_ [[_ ->]|[Hx _]]];
         [now rewrite Er | rewrite Hc in Hx; discriminate]). }
    assert (Hs : ended_inv s).
    { unfold s, drive. rewrite run_app. simpl.
      apply (run_invariant ended_inv); [|exact He].
      intros t ev. apply step_ended_inv. }
    destruct Hs as [Hr Hc]. split; [exact Hc|]. rewrite Hr. f_equal.
    destruct (drive_same_frame (new_process cmd i o e c)
                (evs1 ++ ChildExit :: evs2)) as (_ & _ & _ & _ & _ & _ & Hstatus).
    fold g in Hstatus. fold s in Hstatus. now rewrite <- Hstatus.
Qed.

Lemma X7_terminate_iff_child_alive_witness :
  let g := stream_response (new_process ["node"] PIPE PIPE PIPE three_lines) in
  guard_calls (calls (process (drive g [Proceed; Raise GeneratorExit])))
    = [Terminate; Wait] /\
  guard_calls
    (calls (process (drive g ([Proceed] ++ ChildExit :: [Raise GeneratorExit]))))
    = [].
Proof.
  pose proof (X7_terminate_iff_child_alive ["node"] PIPE PIPE PIPE three_lines)
    as H.
  cbv zeta in H. destruct H as [Ha Hb]. split.
  - apply Ha; [|reflexivity].
    repeat constructor; discriminate.
  - exact (proj1 (Hb [Proceed] [Raise GeneratorExit] eq_refl)).
Defined.

(** X8. The relay never reads ahead.  At every moment the number of
    [readline] calls made on the child's stdout is the number of chunks
    yielded so far, or one more: a line is read only when the consumer has
    asked for the next chunk. *)
Theorem X8_no_read_ahead (p : Process) (evs : list Event) :
  let s := drive (stream_response p) evs in
  reads (calls p) + List.length (chunks s) <= reads (calls (process s)) /\
  reads (calls (process s)) <= reads (calls p) + List.length (chunks s) + 1 /\
  (pc s = AtYield ->
     reads (calls (process s)) = reads (calls p) + List.length (chunks s)).
Proof.
  intros s. pose proof (drive_reads_inv p evs) as H.
  fold s in H. unfold reads_inv in H.
  destruct (pc s) as [| |[x|]|[x|]]; repeat split; try discriminate; lia.
Qed.

Lemma X8_no_read_ahead_witness :
  let s := drive (stream_response
                    (new_process ["node"] PIPE PIPE PIPE three_lines))
                 [Proceed; Proceed; Proceed] in
  pc s = AtYield /\ reads (calls (process s)) = 2 /\ List.length (chunks s) = 2.
Proof.
  intros s. split; [reflexivity|].
  pose proof (X8_no_read_ahead
                (new_process ["node"] PIPE PIPE PIPE three_lines)
                [Proceed; Proceed; Proceed]) as H.
  cbv zeta in H. destruct H as (_ & _ & H).
  split; [exact (H eq_refl) | reflexivity].
Defined.


Lemma X19_cleanup_calls_example :
  let g := stream_response (new_process ["node"] PIPE PIPE PIPE three_lines) in
  outcome (drive g [Proceed; Raise CancelledError; Raise CancelledError])
    = (Done (Some CancelledError), 1, [Terminate; Wait], None, 0) /\
  outcome (drive g [Proceed; Raise CancelledError; Proceed])
    = (Done (Some CancelledError), 1, [Terminate; Wait],
       Some (- SIGTERM)%Z, 1) /\
  outcome (drive g [Proceed; ChildExit; Raise CancelledError])
    = (Done (Some CancelledError), 1, [], Some 0%Z, 1).
Proof. now repeat split. Qed.

(** *** Chunks and lines *)

Lemma byte_neq_newline (b : byte) : Byte.eqb b x0a = false -> b <> x0a.
Proof.
  intros H E. apply Byte.byte_dec_lb in E. rewrite E in H. discriminate.
Qed.

Lemma split_line_framed (buf l r : list byte) :
  buf <> [] -> split_line buf = (l, r) ->
  framed l \/ (r = [] /\ ~ In x0a l /\ l <> []).
Proof.
  revert l r. induction buf as [|b rest IH]; intros l r Hne H; [congruence|].
  simpl in H. destruct (Byte.eqb b x0a) eqn:E.
  - injection H as <- <-. left. exists []. split; [intros []|].
    apply Byte.byte_dec_bl in E. now subst b.
  - apply byte_neq_newline in E.
    destruct rest as [|b' rest'].
    + simpl in H. injection H as <- <-. right.
      split; [reflexivity|]. split; [|discriminate].
      intros [Hb|[]]. now apply E.
    + destruct (split_line (b' :: rest')) as [l' r'] eqn:Hs.
      injection H as <- <-.
      destruct (IH l' r') as [(a & Ha & ->)|(Hr & Hl & _)];
        [discriminate | reflexivity | |].
      * left. exists (b :: a). split; [|reflexivity].
        intros [Hb|Hin]; [now apply E | now apply Ha].
      * right. split; [exact Hr|]. split; [|discriminate].
        intros [Hb|Hin]; [now apply E | now apply Hl].
Qed.

Lemma step_frame_inv (s : Session) (ev : Event) :
  frame_inv s -> frame_inv (step s ev).
Proof.
  unfold frame_inv. step_cases s ev; simpl;
    rewrite ?stdout_cleanup, ?stdout_collect; simpl; auto.
  - (* an over-long line is dropped *)
    intros [H|(Hb & H)]; [now left|]. right. split; [|exact H].
    rewrite Hb in Hsplit. simpl in Hsplit. now injection Hsplit as _ <-.
  - (* end of stream *)
    intros [H|(_ & H)]; [now left|]. right. split; [|exact H].
    destruct (split_line_empty (stdout_data p)) as [_ Hr].
    { now rewrite Hsplit. }
    now rewrite Hsplit in Hr.
  - (* a line is yielded *)
    assert (Hne : stdout_data p <> []).
    { intros Hb. rewrite Hb in Hsplit. discriminate. }
    intros [H|(Hb & _)]; [|contradiction].
    destruct (split_line_framed _ _ _ Hne Hsplit) as [Hf|(Hr & Hl & Hn)].
    + left. apply Forall_app. split; [exact H|]. now constructor.
    + right. split; [exact Hr|]. exists cs, (b :: line). now repeat split.
Qed.

(** X9. Chunk boundaries are line boundaries.  Under every course of
    events each chunk sent is a complete line: bytes without a newline
    followed by one newline.  The only exception is a last chunk without
    newline, and then the child's output ended without one and nothing is
    left to read. *)
Theorem X9_chunks_are_lines (p : Process) (evs : list Event) :
  let s := drive (stream_response p) evs in
  Forall framed (chunks s) \/
  (stdout_data (process s) = [] /\
   exists cs a, chunks s = cs ++ [a] /\ Forall framed cs /\
                ~ In x0a a /\ a <> []).
Proof.
  intros s. unfold s, drive. apply (run_invariant frame_inv).
  - intros t ev. apply step_frame_inv.
  - left. constructor.
Qed.

Lemma step_left (s : Session) (ev : Event) :
  is_done (pc s) = true ->
  chunks (step s ev) = chunks s /\
  stdout_data (process (step s ev)) = stdout_data (process s) /\
  is_done (pc (step s ev)) = true.
Proof.
  destruct s as [p c cs g]. unfold step. simpl.
  destruct c; try discriminate; intros _; destruct ev; simpl;
    rewrite ?stdout_collect; now repeat split.
Qed.

Lemma run_left (evs : list Event) (s : Session) :
  is_done (pc s) = true ->
  chunks (run s evs) = chunks s /\
  stdout_data (process (run s evs)) = stdout_data (process s) /\
  is_done (pc (run s evs)) = true.
Proof.
  revert s. induction evs as [|ev evs IH]; intros s Hd; simpl.
  - now repeat split.
  - destruct (step_left s ev Hd) as (Hc & Hb & Hd').
    destruct (IH _ Hd') as (Hc2 & Hb2 & Hd2).
    repeat split; congruence.
Qed.

Lemma is_done_finally (s : Session) (r : option Exn) :
  is_done (pc (finally_ s r)) = true.
Proof. unfold finally_. simpl. now destruct (returncode (process s)). Qed.

Lemma step_extends (s : Session) (ev : Event) :
  exists more dropped,
    chunks (step s ev) = chunks s ++ more /\
    stdout_data (process s) =
      List.concat more ++ dropped ++ stdout_data (process (step s ev)) /\
    (dropped = [] \/
     (is_done (pc (step s ev)) = true /\
      (limit < content_length dropped)%N)).
Proof.
  step_cases s ev; simpl; rewrite ?stdout_cleanup, ?stdout_collect; simpl;
    try (exists [], []; rewrite app_nil_r; repeat split; now left).
  - (* an over-long line is dropped *)
    exists [], line. rewrite app_nil_r. split; [reflexivity|]. split.
    + pose proof (split_line_app (stdout_data p)) as H.
      now rewrite Hsplit in H.
    + right. split; [now destruct (returncode p) | now apply N.ltb_lt].
  - (* end of stream *)
    exists [], []. rewrite app_nil_r. split; [reflexivity|]. split; [|now left].
    pose proof (split_line_app (stdout_data p)) as H.
    now rewrite Hsplit in H.
  - (* a line is yielded *)
    exists [b :: line], []. split; [reflexivity|]. split; [|now left].
    pose proof (split_line_app (stdout_data p)) as H.
    rewrite Hsplit in H. simpl in *. now rewrite app_nil_r.
Qed.

(** X10. Nothing is repeated or taken back, and nothing is lost but a line
    that is too long.  Between any two moments of a session the list of
    chunks only grows at its end, and the bytes that left the child's stdout
    buffer in between are the bytes of the chunks that were added, in order,
    followed by the bytes [dropped]: none, or the bytes discarded when
    [readline] raised on a line of more than [limit] bytes before its
    newline; then the relay loop has been left and no chunk follows. *)
Theorem X10_chunks_only_grow (s : Session) (evs : list Event) :
  exists more dropped,
    chunks (run s evs) = chunks s ++ more /\
    stdout_data (process s) =
      List.concat more ++ dropped ++ stdout_data (process (run s evs)) /\
    (dropped = [] \/
     (is_done (pc (run s evs)) = true /\
      (limit < content_length dropped)%N)).
Proof.
  revert s. induction evs as [|ev evs IH]; intros s; simpl.
  - exists [], []. rewrite app_nil_r. repeat split. now left.
  - destruct (step_extends s ev) as (m1 & d1 & Hc1 & Hb1 & [Hd1|[Hd1 Hl1]]).
    + destruct (IH (step s ev)) as (m2 & d2 & Hc2 & Hb2 & Hd2).
      exists (m1 ++ m2), d2. split; [|split; [|exact Hd2]].
      * now rewrite Hc2, Hc1, app_assoc.
      * rewrite Hb1, Hb2, Hd1, concat_app. simpl. now rewrite app_assoc.
    + destruct (run_left evs _ Hd1) as (Hc2 & Hb2 & Hd2).
      exists m1, d1. split; [|split].
      * now rewrite Hc2.
      * now rewrite Hb2.
      * right. now split.
Qed.

Lemma X10_dropped_line_example :
  let g := stream_response (new_process ["node"] PIPE PIPE PIPE long_second_line) in
  chunks (drive g (repeat Proceed 8)) = [bytes "one" ++ [x0a]] /\
  stdout_data (process (drive g (repeat Proceed 8))) = bytes "three" ++ [x0a].
Proof. vm_compute. now split. Qed.

(** *** The child's exit and the stream *)

Lemma same_stream_refl (s : Session) : same_stream s s.
Proof. unfold same_stream. now repeat split. Qed.

Lemma same_stream_finally (s t : Session) (r r' : option Exn) :
  chunks s = chunks t ->
  stdout_data (process s) = stdout_data (process t) ->
  same_stream (finally_ s r) (finally_ t r').
Proof.
  intros Hc Hb. unfold same_stream.
  rewrite !is_done_finally. unfold finally_. simpl.
  rewrite !stdout_cleanup. repeat split; try assumption; discriminate.
Qed.

Lemma step_same_stream (s t : Session) (ev : Event) :
  same_stream s t -> same_stream (step s ev) (step t ev).
Proof.
  intros (Hc & Hb & Hd & Hl).
  destruct (is_done (pc s)) eqn:Hs.
  - destruct (step_left s ev Hs) as (Hc1 & Hb1 & Hd1).
    destruct (step_left t ev (eq_sym Hd)) as (Hc2 & Hb2 & Hd2).
    unfold same_stream. rewrite Hc1, Hc2, Hb1, Hb2, Hd1, Hd2.
    repeat split; try assumption; discriminate.
  - destruct (Hl eq_refl) as [Hpc Hh]. clear Hl Hd.
    destruct s as [p c cs g], t as [q c' cs' g']. simpl in *. subst c' cs'.
    unfold step. simpl.
    destruct c; try discriminate; destruct ev; simpl;
      try (now apply same_stream_finally);
      try (unfold same_stream; simpl;
           rewrite ?stdout_collect, ?hung_collect; now repeat split).
    unfold readline. rewrite <- Hb, <- Hh.
    destruct (split_line (stdout_data p)) as [line rest].
    destruct (limit <? content_length line)%N.
    + now apply same_stream_finally.
    + destruct (hung p && negb (ends_line line)).
      * unfold same_stream. simpl. now repeat split.
      * destruct line.
        -- now apply same_stream_finally.
        -- unfold same_stream. simpl. now repeat split.
Qed.

Lemma run_same_stream (evs : list Event) (s t : Session) :
  same_stream s t -> same_stream (run s evs) (run t evs).
Proof.
  revert s t. induction evs as [|ev evs IH]; intros s t H; simpl.
  - exact H.
  - apply IH. now apply step_same_stream.
Qed.

Lemma same_stream_trans (s t u : Session) :
  same_stream s t -> same_stream t u -> same_stream s u.
Proof.
  unfold same_stream. intros (H1 & H2 & H3 & H4) (H5 & H6 & H7 & H8).
  split; [congruence|]. split; [congruence|]. split; [congruence|].
  intros Hs. destruct (H4 Hs) as [Ha Hh].
  assert (Ht : is_done (pc t) = false) by congruence.
  destruct (H8 Ht) as [Hb Hh']. split; congruence.
Qed.

Lemma same_stream_child_exit (s : Session) : same_stream (step s ChildExit) s.
Proof.
  unfold same_stream, step. destruct s as [p c cs g]. simpl.
  destruct c; simpl; rewrite ?stdout_collect, ?hung_collect; now repeat split.
Qed.

(** X16. The child's exit does not end the stream.  Whether and when the
    event loop sees the child exit changes nothing of what the consumer is
    sent: the chunks, the bytes still unread, whether the relay loop has
    been left, and the point where the generator stands as long as the loop
    runs, are the same as if the exit had not been seen.  The stream ends
    when stdout is exhausted or the consumer goes away, not when the process
    dies.  (What the exit does change is the cleanup after the loop: see
    [X16_child_exit_changes_cleanup].) *)
Theorem X16_child_exit_invisible (s : Session) (evs : list Event) :
  let quiet :=
    filter (fun ev => match ev with ChildExit => false | _ => true end) evs in
  chunks (run s evs) = chunks (run s quiet) /\
  stdout_data (process (run s evs)) = stdout_data (process (run s quiet)) /\
  is_done (pc (run s evs)) = is_done (pc (run s quiet)) /\
  (is_done (pc (run s evs)) = false -> pc (run s evs) = pc (run s quiet)).
Proof.
  intros quiet.
  assert (H : same_stream (run s evs) (run s quiet)).
  { unfold quiet. clear quiet. revert s.
    induction evs as [|ev evs IH]; intros s; simpl.
    - apply same_stream_refl.
    - destruct ev; simpl; try apply IH.
      apply (same_stream_trans _ (run s evs)); [|apply IH].
      apply run_same_stream, same_stream_child_exit. }
  destruct H as (Hch & Hout & Hd & Hl). repeat split; try assumption.
  intros Hs. now destruct (Hl Hs).
Qed.

Lemma X16_child_exit_invisible_example :
  let g := stream_response (new_process ["node"] PIPE PIPE PIPE three_lines) in
  view (drive g [Proceed; ChildExit; Proceed; Proceed])
  = view (drive g [Proceed; Proceed; Proceed]).
Proof. reflexivity. Qed.

(** After the loop the two sessions part: a generator that finds the child
    collected finishes at once, one that does not is suspended in
    [await process.wait()], where a second exception replaces the first. *)
Lemma X16_child_exit_changes_cleanup :
  let g := stream_response (new_process ["node"] PIPE PIPE PIPE three_lines) in
  pc (drive g [ChildExit; Raise CancelledError; Raise GeneratorExit])
    = Done (Some CancelledError) /\
  pc (drive g [Raise CancelledError; Raise GeneratorExit])
    = Done (Some GeneratorExit).
Proof. now split. Qed.

(** *** The structure test of [test_package.py] *)

Lemma prefix_refl (s : string) : String.prefix s s = true.
Proof.
  induction s as [|c s IH]; simpl; [reflexivity|].
  destruct (ascii_dec c c); [exact IH | congruence].
Qed.

Lemma contains_refl (s : string) : TestPackage.contains s s = true.
Proof.
  destruct s as [|c s]; [reflexivity|].
  change (TestPackage.contains (String c s) (String c s))
    with (String.prefix (String c s) (String c s)
          || TestPackage.contains (String c s) s).
  now rewrite prefix_refl.
Qed.

(** Where a text starting with [c] occurs, [c] alone occurs. *)
Lemma contains_first_char (c : ascii) (n hay : string) :
  TestPackage.contains (String c n) hay = true ->
  TestPackage.contains (String c EmptyString) hay = true.
Proof.
  induction hay as [|b hay IH]; simpl; [discriminate|].
  destruct (ascii_dec c b) as [E|E].
  - intros _. now destruct hay.
  - simpl. exact IH.
Qed.

Lemma existsb_contains_in (e : string) (routes : list string) :
  In e routes -> existsb (TestPackage.contains e) routes = true.
Proof.
  intros H. apply existsb_exists. exists e. split; [exact H|].
  apply contains_refl.
Qed.

(** X11. The structure test cannot miss the landing page.  Because a
    route counts as defined as soon as its path occurs inside some
    registered path, the expectation ["/"] is met whenever ["/health"] is:
    the verdict of [test_app_structure] on a list of registered paths is
    decided by the other three expectations alone, so removing the route
    ["/"] from the application would go unnoticed. *)
Theorem X11_structure_test_ignores_root_route (routes : list string) :
  fst (TestPackage.test_app_structure (inr routes)) =
  existsb (TestPackage.contains "/health") routes &&
  existsb (TestPackage.contains "/mcp/sse") routes &&
  existsb (TestPackage.contains "/api/mcp/") routes.
Proof.
  assert (H0 : existsb (TestPackage.contains "/health") routes = true ->
               existsb (TestPackage.contains "/") routes = true).
  { intros H. apply existsb_exists in H. destruct H as (r & Hin & Hr).
    apply existsb_exists. exists r. split; [exact Hin|].
    now apply (contains_first_char "/"%char "health"). }
  unfold TestPackage.test_app_structure, TestPackage.expected_routes.
  simpl TestPackage.check_routes.
  destruct (existsb (TestPackage.contains "/health") routes) eqn:E1.
  - rewrite (H0 eq_refl).
    destruct (existsb (TestPackage.contains "/mcp/sse") routes);
      destruct (existsb (TestPackage.contains "/api/mcp/") routes);
      reflexivity.
  - destruct (existsb (TestPackage.contains "/") routes); reflexivity.
Qed.

Lemma X11_structure_test_without_root_route :
  fst (TestPackage.test_app_structure
         (inr [ "/health"; "/mcp/sse"; "/api/mcp/" ])) = true.
Proof.
  now rewrite X11_structure_test_ignores_root_route.
Defined.

(** X12. The structure test passes on the application.  Whenever the four
    expected paths are among the registered ones, in any order and among
    any others, [test_app_structure] returns [True] after printing its
    header and one line per expected route; the route table of [app.py] is
    such a list. *)
Theorem X12_structure_test_passes (routes : list string) :
  (forall e, In e TestPackage.expected_routes -> In e routes) ->
  TestPackage.test_app_structure (inr routes) =
  (true,
   [ (TestPackage.newline ++ "Testing FastAPI app structure...")%string;
     "✓ Route / is defined";
     "✓ Route /health is defined";
     "✓ Route /mcp/sse is defined";
     "✓ Route /api/mcp/ is defined" ]).
Proof.
  intros H.
  unfold TestPackage.test_app_structure, TestPackage.expected_routes.
  simpl TestPackage.check_routes.
  rewrite !existsb_contains_in; [reflexivity | | | |];
    apply H; simpl; auto.
Qed.

Lemma X12_structure_test_passes_witness :
  fst (TestPackage.test_app_structure
         (inr ([ "/openapi.json"; "/docs" ] ++ route_paths))) = true.
Proof.
  rewrite X12_structure_test_passes; [reflexivity|].
  intros e He. apply in_or_app. right.
  simpl in He. unfold route_paths. simpl.
  repeat (destruct He as [He|He]; [subst e; auto 10|]). contradiction.
Defined.

(** *** The file checks of [verify_deployment.py] *)

Lemma check_files_spec (fs : FileSystem)
  (files : list (PurePath.Path * string)) (passed : bool) :
  fst (VerifyDeployment.check_files fs files passed) =
    passed && forallb (fun f => fs (fst f)) files /\
  List.length (snd (VerifyDeployment.check_files fs files passed)) =
    List.length files /\
  Forall (fun line => exists text, line = inl text)
         (snd (VerifyDeployment.check_files fs files passed)).
Proof.
  revert passed. induction files as [|[filepath description] rest IH];
    intros passed; simpl.
  - rewrite andb_true_r. repeat split. constructor.
  - unfold VerifyDeployment.check_file_exists.
    destruct (fs filepath) eqn:E; simpl.
    + destruct (VerifyDeployment.check_files fs rest passed)
        as [b lines] eqn:R.
      destruct (IH passed) as (H1 & H2 & H3). rewrite R in H1, H2, H3.
      simpl in *. repeat split; [exact H1 | now rewrite H2 |].
      constructor; [eexists; reflexivity | exact H3].
    + destruct (VerifyDeployment.check_files fs rest false)
        as [b lines] eqn:R.
      destruct (IH false) as (H1 & H2 & H3). rewrite R in H1, H2, H3.
      simpl in *. repeat split.
      * rewrite H1. now rewrite andb_false_r.
      * now rewrite H2.
      * constructor; [eexists; reflexivity | exact H3].
Qed.

(** X13. The file check reports every file.  The loop over a list of
    required files ends with [all_checks_passed] still true exactly when it
    was true before and every file of the list exists; it prints one line
    per file, also after a file was found missing, and none of these
    prints raises. *)
Theorem X13_check_files_reports_every_file (fs : FileSystem)
  (files : list (PurePath.Path * string)) (passed : bool) :
  fst (VerifyDeployment.check_files fs files passed) =
    passed && forallb (fun f => fs (fst f)) files /\
  List.length (snd (VerifyDeployment.check_files fs files passed)) =
    List.length files /\
  Forall (fun line => exists text, line = inl text)
         (snd (VerifyDeployment.check_files fs files passed)).
Proof. apply check_files_spec. Qed.

(** *** The layout of the repository *)

Lemma components_app (cur s t : string) :
  PurePath.components cur (s ++ String "/"%char t) =
  PurePath.components cur s ++ PurePath.components EmptyString t.
Proof.
  revert cur. induction s as [|c s IH]; intros cur; simpl.
  - reflexivity.
  - destruct (Ascii.eqb c "/"%char); simpl; now rewrite IH.
Qed.

Lemma parts_under (repo t : string) :
  PurePath.parts (PurePath.of_str (repo ++ String "/"%char t)) =
  PurePath.parts (PurePath.of_str repo) ++
  filter PurePath.keeps (PurePath.components EmptyString t).
Proof.
  unfold PurePath.of_str. simpl PurePath.parts.
  now rewrite components_app, filter_app.
Qed.

Lemma root_under (repo t : string) :
  PurePath.root (PurePath.of_str (repo ++ String "/"%char t)) =
  PurePath.is_absolute_str (repo ++ "/").
Proof. now destruct repo. Qed.

Lemma path_eq (p q : PurePath.Path) :
  PurePath.root p = PurePath.root q -> PurePath.parts p = PurePath.parts q ->
  p = q.
Proof. destruct p, q. simpl. now intros -> ->. Qed.

Lemma removelast_snoc {A : Type} (l : list A) (a : A) :
  removelast (l ++ [a]) = l.
Proof. apply removelast_last. Qed.

(** The directory of a file that lies directly below [repo]. *)
Lemma parent_under (repo name : string) :
  filter PurePath.keeps (PurePath.components EmptyString name) = [name] ->
  PurePath.parent (PurePath.of_str (repo ++ String "/"%char name)) =
  {| PurePath.root := PurePath.is_absolute_str (repo ++ "/");
     PurePath.parts := PurePath.parts (PurePath.of_str repo) |}.
Proof.
  intros H. apply path_eq; unfold PurePath.parent;
    cbn [PurePath.root PurePath.parts].
  - apply root_under.
  - rewrite parts_under, H. apply removelast_snoc.
Qed.

Lemma default_cli_in_repo (repo : string) :
  Resolve.default_cli_path (app_file repo) =
  VerifyDeployment.root (verify_file repo) // "cli.js".
Proof.
  unfold Resolve.default_cli_path, VerifyDeployment.root, app_file,
    verify_file.
  rewrite (parent_under repo "verify_deployment.py") by reflexivity.
  rewrite !join_cli_js. unfold PurePath.parent.
  apply path_eq; cbn [PurePath.root PurePath.parts].
  - apply root_under.
  - f_equal. rewrite parts_under. simpl filter.
    change (PurePath.parts (PurePath.of_str repo)
            ++ ["src"; "playwright_mcp_databricks"; "app.py"])
      with (PurePath.parts (PurePath.of_str repo)
            ++ ["src"] ++ ["playwright_mcp_databricks"] ++ ["app.py"]).
    rewrite !app_assoc. now rewrite !removelast_snoc.
Qed.

Lemma join_name (p : PurePath.Path) (name : string) :
  PurePath.is_absolute_str name = false ->
  filter PurePath.keeps (PurePath.components EmptyString name) = [name] ->
  p // name =
  {| PurePath.root := PurePath.root p;
     PurePath.parts := PurePath.parts p ++ [name] |}.
Proof.
  intros Ha Hc. unfold PurePath.joinpath, PurePath.of_str. simpl.
  now rewrite Ha, Hc.
Qed.

Lemma static_index_in_repo (repo : string) :
  PurePath.parent (PurePath.of_str (app_file repo)) // "static" // "index.html"
  = TestPackage.index_html (test_file repo).
Proof.
  unfold TestPackage.index_html, app_file, test_file.
  rewrite (parent_under repo "test_package.py") by reflexivity.
  rewrite !join_name by reflexivity. unfold PurePath.parent.
  apply path_eq; cbn [PurePath.root PurePath.parts].
  - apply root_under.
  - rewrite parts_under. simpl filter.
    change (PurePath.parts (PurePath.of_str repo)
            ++ ["src"; "playwright_mcp_databricks"; "app.py"])
      with (PurePath.parts (PurePath.of_str repo)
            ++ ["src"] ++ ["playwright_mcp_databricks"] ++ ["app.py"]).
    rewrite !app_assoc, removelast_snoc, <- !app_assoc. reflexivity.
Qed.

Lemma root_in_repo (repo : string) :
  VerifyDeployment.root (verify_file repo) =
  PurePath.parent (PurePath.of_str (test_file repo)).
Proof.
  unfold VerifyDeployment.root, verify_file, test_file.
  rewrite (parent_under repo "verify_deployment.py") by reflexivity.
  now rewrite (parent_under repo "test_package.py") by reflexivity.
Qed.

(** X14. A verified layout needs no search.  With [app.py] and
    [verify_deployment.py] at their places in the repository, the default
    script path of the handler is the [cli.js] that the deployment check
    lists as required.  So when the check of the required files passes, the
    handler resolves to that file with a single probe, never consults the
    search path, and spawns [node] on it. *)
Theorem X14_verified_layout_needs_no_scan
  (repo : string) (fs : FileSystem) (sys_path : list string) (os : OS)
  (request : Request) :
  let d := VerifyDeployment.root (verify_file repo) // "cli.js" in
  Resolve.default_cli_path (app_file repo) = d /\
  In d (map fst (VerifyDeployment.required_files (verify_file repo))) /\
  (fst (VerifyDeployment.check_files fs
          (VerifyDeployment.required_files (verify_file repo)) true) = true ->
   Resolve.cli_path fs (app_file repo) sys_path = d /\
   Resolve.probes fs (app_file repo) sys_path = [d] /\
   snd (handle_sse_connection (mkEnv (app_file repo) sys_path fs os) request)
     = [Exists d; Spawn (build_cmd d) PIPE PIPE PIPE]).
Proof.
  intros d. split; [apply default_cli_in_repo|]. split.
  - simpl. auto 10.
  - intros H.
    destruct (check_files_spec fs
                (VerifyDeployment.required_files (verify_file repo)) true)
      as (Hf & _). rewrite H in Hf. simpl in Hf.
    repeat (apply andb_prop in Hf; let H1 := fresh in destruct Hf as [H1 Hf]).
    symmetry in Hf. repeat (apply andb_prop in Hf; destruct Hf as [? Hf]).
    assert (Hd : fs d = true) by assumption.
    assert (Hc : Resolve.cli_path fs (app_file repo) sys_path = d /\
                 Resolve.probes fs (app_file repo) sys_path = [d]).
    { unfold Resolve.cli_path, Resolve.probes, Resolve.resolve_cli_path.
      rewrite default_cli_in_repo. fold d. rewrite Hd. now split. }
    destruct Hc as [Hc Hp]. split; [exact Hc|]. split; [exact Hp|].
    rewrite handle_trace. simpl. now rewrite Hc, Hp.
Qed.

Lemma X14_verified_layout_needs_no_scan_witness :
  Resolve.probes (fun _ => true) (app_file "/repo") ["/d1"; "/d2"] =
  [ PurePath.of_str "/repo/cli.js" ].
Proof.
  pose proof (X14_verified_layout_needs_no_scan "/repo" (fun _ => true)
                ["/d1"; "/d2"] os_three get_sse) as H.
  cbv zeta in H. destruct H as (_ & _ & H).
  destruct (H eq_refl) as (_ & Hp & _). exact Hp.
Defined.

(** X15. One landing page.  With the files at their places in the
    repository, the file that [serve_index] answers with is the
    [index.html] that [test_static_files] looks for and that the deployment
    check lists among the source files; serving it touches neither the
    file system nor any process. *)
Theorem X15_one_landing_page
  (repo : string) (sys_path : list string) (fs : FileSystem) (os : OS)
  (request : Request) :
  let env := mkEnv (app_file repo) sys_path fs os in
  let page := TestPackage.index_html (test_file repo) in
  call serve_index env request = (Returns (FileResponse page), []) /\
  In page (map fst (VerifyDeployment.src_files (verify_file repo))).
Proof.
  intros env page. split.
  - unfold call, STATIC_DIR. simpl module_file.
    now rewrite static_index_in_repo.
  - unfold VerifyDeployment.src_files. rewrite root_in_repo.
    simpl. unfold page, TestPackage.index_html. auto.
Qed.

(** X17. The health check.  A GET on [/health] is answered with the fixed
    payload whatever the surroundings and whatever else the request
    carries; it probes no path, starts no process and opens no session. *)
Theorem X17_health_is_fixed (env : Env) (r : Request) :
  method r = GET -> url_path r = "/health" ->
  dispatch env r =
    (Returns (JSONResponse [ ("status", "healthy");
                             ("service", "playwright-mcp-server") ]), []) /\
  forall evs, session_of (fst (dispatch env r)) evs = None.
Proof.
  intros Hm Hp.
  assert (E : route r = Some health).
  { apply route_complete. rewrite Hm, Hp. simpl. auto. }
  unfold dispatch. rewrite E. now split.
Qed.

Lemma X17_health_is_fixed_witness :
  fst (dispatch env_d2
         {| method := GET; url_path := "/health";
            req_headers := [("x-probe", "1")]; body := bytes "ignored" |})
  = Returns (JSONResponse [ ("status", "healthy");
                            ("service", "playwright-mcp-server") ]).
Proof.
  now rewrite (proj1 (X17_health_is_fixed env_d2
                 {| method := GET; url_path := "/health";
                    req_headers := [("x-probe", "1")];
                    body := bytes "ignored" |} eq_refl eq_refl)).
Defined.

Lemma check_routes_spec (routes expected : list string) :
  let found := fun e => existsb (TestPackage.contains e) routes in
  let defined := fun e => ("✓ Route " ++ e ++ " is defined")%string in
  let missing := fun e => ("✗ Route " ++ e ++ " is missing")%string in
  (forallb found expected = true /\
   TestPackage.check_routes routes expected = (true, map defined expected)) \/
  (exists pre e post,
     expected = pre ++ e :: post /\
     forallb found pre = true /\ found e = false /\
     TestPackage.check_routes routes expected =
       (false, map defined pre ++ [missing e])).
Proof.
  intros found defined missing.
  induction expected as [|e rest IH]; simpl.
  - left. now split.
  - fold (found e). destruct (found e) eqn:E.
    + destruct IH as [[Hall Hc]|(pre & x & post & Hex & Hpre & Hx & Hc)].
      * left. rewrite Hc. now split.
      * right. exists (e :: pre), x, post. rewrite Hc, Hex. simpl.
        rewrite E. now repeat split.
    + right. exists [], e, rest. now repeat split.
Qed.

(** X18. The structure test stops at the first missing route.  When
    [test_app_structure] fails on a list of registered paths, it has
    printed one "defined" line for each expected route before the first
    one that occurs in no registered path, then one "missing" line for that
    route, and nothing for the expectations after it. *)
Theorem X18_structure_test_stops_at_first_miss (routes : list string) :
  fst (TestPackage.test_app_structure (inr routes)) = false ->
  exists pre e post,
    TestPackage.expected_routes = pre ++ e :: post /\
    forallb (fun x => existsb (TestPackage.contains x) routes) pre = true /\
    existsb (TestPackage.contains e) routes = false /\
    snd (TestPackage.test_app_structure (inr routes)) =
      (TestPackage.newline ++ "Testing FastAPI app structure...")%string
      :: map (fun x => ("✓ Route " ++ x ++ " is defined")%string) pre
      ++ [ ("✗ Route " ++ e ++ " is missing")%string ].
Proof.
  unfold TestPackage.test_app_structure.
  destruct (check_routes_spec routes TestPackage.expected_routes)
    as [[_ Hc]|(pre & e & post & Hex & Hpre & He & Hc)];
    rewrite Hc; simpl; intros H; [discriminate|].
  exists pre, e, post. now repeat split.
Qed.

Lemma X18_structure_test_stops_at_first_miss_witness :
  fst (TestPackage.test_app_structure (inr [ "/health"; "/api/mcp/" ]))
    = false /\
  exists pre e post,
    TestPackage.expected_routes = pre ++ e :: post /\
    forallb (fun x => existsb (TestPackage.contains x)
                        [ "/health"; "/api/mcp/" ]) pre = true /\
    existsb (TestPackage.contains e) [ "/health"; "/api/mcp/" ] = false /\
    snd (TestPackage.test_app_structure (inr [ "/health"; "/api/mcp/" ])) =
      (TestPackage.newline ++ "Testing FastAPI app structure...")%string
      :: map (fun x => ("✓ Route " ++ x ++ " is defined")%string) pre
      ++ [ ("✗ Route " ++ e ++ " is missing")%string ].
Proof.
  split; [reflexivity|].
  exact (X18_structure_test_stops_at_first_miss [ "/health"; "/api/mcp/" ]
           eq_refl).
Defined.
